(** * today_tmp: a daily scratch directory kept in a git repository

    Shallow embedding of [modules/today_tmp/today_tmp.py].

    The program talks to three things outside itself: the filesystem, the
    wall clock and the [git] executable.  The filesystem is modelled as a
    finite map from canonical locations to inodes with POSIX path
    resolution (symbolic links, [..], the 40-link limit of Linux); the
    clock and [git] are oracles of an environment.  Every effect of the
    program (a printed line, a successful mutating system call, a
    subprocess) is appended to the event log of the world, and Python
    exceptions are the left summand of the result. *)

From stdpp Require Import base option list strings gmap.
From Stdlib Require Import Ascii String Arith Lia.

Local Open Scope string_scope.
Local Open Scope list_scope.

(** ** Python [str] operations used by the program (ASCII subset) *)

Module Str.

(** [str.isspace] on one ASCII character: TAB..CR, FS..US and SPACE. *)
Definition isspace (a : ascii) : bool :=
  let n := nat_of_ascii a in
  (Nat.leb 9 n && Nat.leb n 13) || (Nat.leb 28 n && Nat.leb n 32).

(** Line boundaries of [str.splitlines] among the ASCII characters:
    LF, VT, FF, CR, FS, GS and RS ([CR LF] counts once). *)
Definition islinebreak (a : ascii) : bool :=
  let n := nat_of_ascii a in
  (Nat.leb 10 n && Nat.leb n 13) || (Nat.leb 28 n && Nat.leb n 30).

Fixpoint lstrip (s : string) : string :=
  match s with
  | String a s' => if isspace a then lstrip s' else s
  | EmptyString => EmptyString
  end.

Fixpoint rstrip (s : string) : string :=
  match s with
  | String a s' =>
      match rstrip s' with
      | EmptyString => if isspace a then EmptyString else String a EmptyString
      | r => String a r
      end
  | EmptyString => EmptyString
  end.

Definition strip (s : string) : string := rstrip (lstrip s).

(** [splitlines_from acc s]: [acc] is the current line, reversed. *)
Fixpoint splitlines_from (acc : list ascii) (s : string) : list string :=
  match s with
  | EmptyString =>
      match acc with
      | [] => []
      | _ => [string_of_list_ascii (rev acc)]
      end
  | String a s' =>
      if islinebreak a then
        string_of_list_ascii (rev acc) ::
          match s' with
          | String b s'' =>
              if Nat.eqb (nat_of_ascii a) 13 && Nat.eqb (nat_of_ascii b) 10
              then splitlines_from [] s'' else splitlines_from [] s'
          | EmptyString => []
          end
      else splitlines_from (a :: acc) s'
  end.

Definition splitlines (s : string) : list string := splitlines_from [] s.

(** [s[:n]] and [s[n:]]. *)
Fixpoint take (n : nat) (s : string) : string :=
  match n, s with
  | S n', String a s' => String a (take n' s')
  | _, _ => EmptyString
  end.

Fixpoint drop (n : nat) (s : string) : string :=
  match n, s with
  | S n', String _ s' => drop n' s'
  | _, _ => s
  end.

(** [s.split(sep)] for a one-character separator. *)
Fixpoint split_from (sep : ascii) (acc : list ascii) (s : string)
  : list string :=
  match s with
  | EmptyString => [string_of_list_ascii (rev acc)]
  | String a s' =>
      if Ascii.eqb a sep
      then string_of_list_ascii (rev acc) :: split_from sep [] s'
      else split_from sep (a :: acc) s'
  end.

Definition split (sep : ascii) (s : string) : list string :=
  split_from sep [] s.

Fixpoint join (sep : string) (l : list string) : string :=
  match l with
  | [] => EmptyString
  | [x] => x
  | x :: l' => x +:+ sep +:+ join sep l'
  end.

Definition digit (n : nat) : ascii := ascii_of_nat (48 + n mod 10).

Definition digit_val (a : ascii) : option nat :=
  let n := nat_of_ascii a in
  if Nat.leb 48 n && Nat.leb n 57 then Some (n - 48) else None.

Definition pad2 (n : nat) : string :=
  String (digit (n / 10)) (String (digit n) EmptyString).

Definition pad4 (n : nat) : string :=
  String (digit (n / 1000)) (String (digit (n / 100)) (pad2 n)).

End Str.

(** ** [pathlib.PurePosixPath]

    A path is its anchor (rooted or not) and its components.  The
    constructor of [pathlib] drops empty components and [.], and keeps
    [..]; two paths are equal when anchor and components are.  (The root
    written with exactly two slashes, which POSIX sets apart, is read as
    the root.) *)

Record Path := mkPath { anchored : bool; parts : list string }.

#[global] Instance Path_eq_dec : EqDecision Path.
Proof. solve_decision. Defined.

Module PurePath.

(** [Path(s)].  A path is anchored at [/] or not: the root of exactly
    two slashes, which [pathlib] keeps apart from [/], has no value of
    its own here and is read as [/]. *)
Definition of_str (s : string) : Path :=
  mkPath (match s with String "/" _ => true | _ => false end)
         (filter (fun c => c <> "" /\ c <> ".") (Str.split "/" s)).

(** [str(p)] *)
Definition to_str (p : Path) : string :=
  match anchored p, parts p with
  | false, [] => "."
  | false, l => Str.join "/" l
  | true, l => "/" +:+ Str.join "/" l
  end.

(** [p / q] *)
Definition join (p q : Path) : Path :=
  if anchored q then q else mkPath (anchored p) (parts p ++ parts q).

(** [p / s] for a string operand *)
Definition join_str (p : Path) (s : string) : Path := join p (of_str s).

(** [p.parent] *)
Definition parent (p : Path) : Path :=
  mkPath (anchored p) (removelast (parts p)).

(** [p.name] *)
Definition name (p : Path) : string := List.last (parts p) "".

(** [p.with_name(n)]; [None] stands for the [ValueError] raised when
    [p] has an empty name. *)
Definition with_name (p : Path) (n : string) : option Path :=
  match parts p with
  | [] => None
  | _ => Some (mkPath (anchored p) (removelast (parts p) ++ [n]))
  end.

End PurePath.

Notation "p // q" := (PurePath.join p q) (at level 40, left associativity).

(** ** [datetime]: the fields the program reads, [strftime], [strptime] *)

Record datetime := mkDT {
  year : nat; month : nat; day : nat;
  hour : nat; minute : nat; second : nat
}.

#[global] Instance datetime_eq_dec : EqDecision datetime.
Proof. solve_decision. Defined.

Module DateTime.

Definition key (t : datetime) : list nat :=
  [year t; month t; day t; hour t; minute t; second t].

Fixpoint lex_ltb (a b : list nat) : bool :=
  match a, b with
  | x :: a', y :: b' => Nat.ltb x y || (Nat.eqb x y && lex_ltb a' b')
  | _, _ => false
  end.

(** [a < b] on [datetime] values *)
Definition ltb (a b : datetime) : bool := lex_ltb (key a) (key b).

(** [t.strftime(fmt)] for the directives [%Y %m %d %H %M %S]; any other
    character is copied.  ([%Y] is four digits: years 1000..9999.) *)
Fixpoint strftime (fmt : string) (t : datetime) : string :=
  match fmt with
  | String "%" (String c fmt') =>
      (if Ascii.eqb c "Y" then Str.pad4 (year t)
       else if Ascii.eqb c "m" then Str.pad2 (month t)
       else if Ascii.eqb c "d" then Str.pad2 (day t)
       else if Ascii.eqb c "H" then Str.pad2 (hour t)
       else if Ascii.eqb c "M" then Str.pad2 (minute t)
       else if Ascii.eqb c "S" then Str.pad2 (second t)
       else String "%" (String c EmptyString)) +:+ strftime fmt' t
  | String c fmt' => String c (strftime fmt' t)
  | EmptyString => EmptyString
  end.

(** One character of a class [lo-hi] of digits, as its value. *)
Definition digit_in (lo hi : nat) (a : ascii) : option nat :=
  match Str.digit_val a with
  | Some v => if Nat.leb lo v && Nat.leb v hi then Some v else None
  | None => None
  end.

(** The regular expressions [_strptime] builds for the directives, tried
    in the order of their alternatives; the result is the value read and
    the rest of the input. *)

(** [%Y]: [\d\d\d\d], the digits being the ASCII ones *)
Definition take_Y (s : string) : option (nat * string) :=
  match s with
  | String a (String b (String c (String d r))) =>
      match Str.digit_val a, Str.digit_val b,
            Str.digit_val c, Str.digit_val d with
      | Some va, Some vb, Some vc, Some vd =>
          Some (1000 * va + 100 * vb + 10 * vc + vd, r)
      | _, _, _, _ => None
      end
  | _ => None
  end.

(** two characters [x][lo-hi] with [x] fixed *)
Definition two (x : ascii) (lo hi : nat) (s : string)
  : option (nat * string) :=
  match s with
  | String a (String b r) =>
      if Ascii.eqb a x then
        match digit_in lo hi b with
        | Some v => Some (10 * default 0 (Str.digit_val a) + v, r)
        | None => None
        end
      else None
  | _ => None
  end.

Definition one (lo hi : nat) (s : string) : option (nat * string) :=
  match s with
  | String a r =>
      match digit_in lo hi a with Some v => Some (v, r) | None => None end
  | _ => None
  end.

Definition orelse {A} (x y : option A) : option A :=
  match x with Some _ => x | None => y end.

(** [%m]: [1[0-2]|0[1-9]|[1-9]] *)
Definition take_m (s : string) : option (nat * string) :=
  orelse (two "1" 0 2 s) (orelse (two "0" 1 9 s) (one 1 9 s)).

(** [%d]: [3[0-1]|[1-2]\d|0[1-9]|[1-9]| [1-9]] *)
Definition take_d (s : string) : option (nat * string) :=
  orelse (two "3" 0 1 s)
    (orelse (two "1" 0 9 s)
       (orelse (two "2" 0 9 s)
          (orelse (two "0" 1 9 s)
             (orelse (one 1 9 s) (two " " 1 9 s))))).

(** Matching the input against the format.  The fields start at the
    defaults of [_strptime] (1900, 1, 1).  No alternative that is
    skipped could have matched a longer input, so the first match is the
    only one and no backtracking is modelled. *)
Fixpoint match_fmt (fmt s : string) (y m d : nat)
  : option (nat * nat * nat) :=
  match fmt with
  | EmptyString =>
      match s with
      | EmptyString => Some (y, m, d)
      | _ => None                      (* unconverted data remains *)
      end
  | String "%" (String c fmt') =>
      if Ascii.eqb c "Y" then
        match take_Y s with
        | Some (v, r) => match_fmt fmt' r v m d
        | None => None
        end
      else if Ascii.eqb c "m" then
        match take_m s with
        | Some (v, r) => match_fmt fmt' r y v d
        | None => None
        end
      else if Ascii.eqb c "d" then
        match take_d s with
        | Some (v, r) => match_fmt fmt' r y m v
        | None => None
        end
      else None
  | String c fmt' =>
      match s with
      | String c' s' => if Ascii.eqb c c' then match_fmt fmt' s' y m d else None
      | EmptyString => None
      end
  end.

Definition is_leap (y : nat) : bool :=
  Nat.eqb (y mod 4) 0 && (negb (Nat.eqb (y mod 100) 0) || Nat.eqb (y mod 400) 0).

Definition days_in_month (y m : nat) : nat :=
  match m with
  | 2 => if is_leap y then 29 else 28
  | 4 | 6 | 9 | 11 => 30
  | _ => 31
  end.

(** the range checks of the [datetime] constructor *)
Definition valid_date (y m d : nat) : bool :=
  Nat.leb 1 y && Nat.leb y 9999 && Nat.leb 1 m && Nat.leb m 12
  && Nat.leb 1 d && Nat.leb d (days_in_month y m).

(** [datetime.strptime(s, fmt)]; [None] is the [ValueError]. *)
Definition strptime (s fmt : string) : option datetime :=
  match match_fmt fmt s 1900 1 1 with
  | Some (y, m, d) =>
      if valid_date y m d then Some (mkDT y m d 0 0 0) else None
  | None => None
  end.

End DateTime.

(** ** The filesystem

    A location is the canonical list of names from the root; the root is
    always a directory.  A symbolic link stores its target as the path the
    stored string denotes.  Inodes are files, directories and symbolic
    links; permissions and hard links are left out, so the errors are
    those of path resolution and of the kind of inode found. *)

Inductive inode :=
  | File (content : string)
  | Dir
  | Link (target : Path).

Inductive errno :=
  ENOENT | ENOTDIR | EEXIST | ENOTEMPTY | ELOOP | EINVAL | EISDIR | EBUSY.

#[global] Instance inode_eq_dec : EqDecision inode.
Proof. solve_decision. Defined.

#[global] Instance errno_eq_dec : EqDecision errno.
Proof. solve_decision. Defined.

Module Fs.

Definition get (f : gmap (list string) inode) (l : list string)
  : option inode :=
  match l with
  | [] => Some Dir
  | _ => f !! l
  end.

(** Linux follows at most 40 symbolic links in one lookup. *)
Definition MAXSYMLINKS : nat := 40.

(** Path resolution from the directory [cur].  The result is the
    location the last component names, whether or not something is
    there; a symbolic link in the last position is followed only when
    [follow] is set.  [fuel] is the number of links that may still be
    followed. *)
Fixpoint walk (fuel : nat) (f : gmap (list string) inode) (follow : bool)
    (cur : list string) (comps : list string) {struct fuel}
  : errno + list string :=
  (fix go (cur : list string) (comps : list string) {struct comps}
     : errno + list string :=
     match comps with
     | [] => inr cur
     | c :: rest =>
         match get f cur with
         | Some Dir =>
             if String.eqb c ".." then go (removelast cur) rest
             else
               match f !! (cur ++ [c]) with
               | Some (Link t) =>
                   if bool_decide (rest = []) && negb follow
                   then inr (cur ++ [c])
                   else
                     match fuel with
                     | 0 => inl ELOOP
                     | S fuel' =>
                         walk fuel' f follow
                           (if anchored t then [] else cur)
                           (parts t ++ rest)
                     end
               | _ => go (cur ++ [c]) rest
               end
         | Some _ => inl ENOTDIR
         | None => inl ENOENT
         end
     end) cur comps.

(** names of the entries of the directory at [d] *)
Definition children (f : gmap (list string) inode) (d : list string)
  : list string :=
  omap (fun kv : list string * inode =>
          match rev kv.1 with
          | n :: rp => if bool_decide (rev rp = d) then Some n else None
          | [] => None
          end) (map_to_list f).

Fixpoint strip_prefix (p k : list string) : option (list string) :=
  match p, k with
  | [], _ => Some k
  | x :: p', y :: k' => if bool_decide (x = y) then strip_prefix p' k' else None
  | _ :: _, [] => None
  end.

(** the subtree at [src] carried to [dst], replacing what was at [dst] *)
Definition move (src dst : list string) (f : gmap (list string) inode)
  : gmap (list string) inode :=
  list_to_map
    (omap (fun kv : list string * inode =>
             match strip_prefix src kv.1 with
             | Some sfx => Some (dst ++ sfx, kv.2)
             | None => if bool_decide (kv.1 = dst) then None else Some kv
             end) (map_to_list f)).

Section Syscalls.
Variable cwd : list string.
Variable f : gmap (list string) inode.

Definition locate (follow : bool) (p : Path) : errno + list string :=
  walk MAXSYMLINKS f follow (if anchored p then [] else cwd) (parts p).

Definition inode_at (follow : bool) (p : Path) : errno + inode :=
  match locate follow p with
  | inr l => match get f l with Some i => inr i | None => inl ENOENT end
  | inl e => inl e
  end.

(** [stat(2)] and [lstat(2)], as far as the file type *)
Definition stat (p : Path) : errno + inode := inode_at true p.
Definition lstat (p : Path) : errno + inode := inode_at false p.

(** creation of an entry: [mkdir(2)], [symlink(2)] *)
Definition create (i : inode) (p : Path)
  : errno + gmap (list string) inode :=
  match locate false p with
  | inr l =>
      match get f l with
      | Some _ => inl EEXIST
      | None => inr (<[l := i]> f)
      end
  | inl e => inl e
  end.

Definition mkdir (p : Path) := create Dir p.
Definition symlink (target p : Path) := create (Link target) p.

Definition unlink (p : Path) : errno + gmap (list string) inode :=
  match locate false p with
  | inr l =>
      match get f l with
      | Some Dir => inl EISDIR
      | Some _ => inr (delete l f)
      | None => inl ENOENT
      end
  | inl e => inl e
  end.

Definition rmdir (p : Path) : errno + gmap (list string) inode :=
  match locate false p with
  | inr l =>
      match get f l with
      | Some Dir =>
          match l, children f l with
          | [], _ => inl EBUSY
          | _, [] => inr (delete l f)
          | _, _ :: _ => inl ENOTEMPTY
          end
      | Some _ => inl ENOTDIR
      | None => inl ENOENT
      end
  | inl e => inl e
  end.

Definition readlink (p : Path) : errno + Path :=
  match lstat p with
  | inr (Link t) => inr t
  | inr _ => inl EINVAL
  | inl e => inl e
  end.

Definition listdir (p : Path) : errno + list string :=
  match locate true p with
  | inr l =>
      match get f l with
      | Some Dir => inr (children f l)
      | Some _ => inl ENOTDIR
      | None => inl ENOENT
      end
  | inl e => inl e
  end.

(** [rename(2)]: neither last component is followed; an existing
    destination is replaced when it is of the same kind as the source
    (and empty, for a directory). *)
Definition rename (src dst : Path) : errno + gmap (list string) inode :=
  match locate false src with
  | inr ls =>
      match get f ls with
      | None => inl ENOENT
      | Some i =>
          match locate false dst with
          | inr ld =>
              if bool_decide (ls = ld) then inr f
              else if bool_decide (ls = []) then inl EBUSY
              else if bool_decide (is_Some (strip_prefix ls ld))
              then inl EINVAL
              else
                match get f ld, i with
                | None, _ => inr (move ls ld f)
                | Some Dir, Dir =>
                    match ld, children f ld with
                    | [], _ => inl EBUSY
                    | _, [] => inr (move ls ld f)
                    | _, _ :: _ => inl ENOTEMPTY
                    end
                | Some Dir, _ => inl EISDIR
                | Some _, Dir => inl ENOTDIR
                | Some _, _ => inr (move ls ld f)
                end
          | inl e => inl e
          end
      end
  | inl e => inl e
  end.

End Syscalls.

End Fs.

(** ** The world: filesystem, clock reads so far, and the effect log *)

Inductive exn :=
  | OSError (e : errno)
  | ValueError (msg : string)
  | CalledProcessError (argv : list string).

Inductive event :=
  | Printed (line : string)
  | SysMkdir (p : Path)
  | SysUnlink (p : Path)
  | SysRename (src dst : Path)
  | SysSymlink (target p : Path)
  | SysRmdir (p : Path)
  | Run (argv : list string) (dir : Path).

#[global] Instance event_eq_dec : EqDecision event.
Proof. solve_decision. Defined.

Record World := mkWorld {
  fs : gmap (list string) inode;
  ticks : nat;
  events : list event
}.

(** What the program does not decide: the working directory of the
    process, the wall clock (one value for each read) and the [git]
    executable ([None] is a non-zero exit status, [Some out] its standard
    output). *)
Record Env := mkEnv {
  cwd : list string;
  clock : nat -> datetime;
  git : World -> Path -> list string -> option string
}.

(** Computations that may raise and that change the world. *)
Definition M (A : Type) : Type := World -> (exn + A) * World.

#[global] Instance M_ret : MRet M := fun A (a : A) w => (inr a, w).

#[global] Instance M_bind : MBind M := fun A B (k : A -> M B) (m : M A) w =>
  match m w with
  | (inr a, w') => k a w'
  | (inl e, w') => (inl e, w')
  end.

Definition raise {A} (e : exn) : M A := fun w => (inl e, w).

Definition log (e : event) (w : World) : World :=
  mkWorld (fs w) (ticks w) (events w ++ [e]).

Definition print (line : string) : M unit := fun w => (inr tt, log (Printed line) w).

Fixpoint for_each {A} (l : list A) (body : A -> M unit) : M unit :=
  match l with
  | [] => mret tt
  | x :: l' => body x;; for_each l' body
  end.

Definition DATE_FMT : string := "%Y-%m-%d".
Definition FILENAME_DATETIME_FMT : string := "%Y-%m-%dT%H_%M_%S".
Definition PREV_LINK : string := "prev".

Record Args := mkArgs { repo_path : Path; working_path : Path; full : bool }.

Section Program.

Variable env : Env.

(** *** The library calls of the program *)

(** [datetime.now()] *)
Definition now : M datetime := fun w =>
  (inr (clock env (ticks w)), mkWorld (fs w) (S (ticks w)) (events w)).

Definition query {A} (q : gmap (list string) inode -> A) : M A :=
  fun w => (inr (q (fs w)), w).

(** a mutating system call; it is logged when it succeeds *)
Definition syscall (ev : event)
    (op : gmap (list string) inode -> errno + gmap (list string) inode)
  : M unit :=
  fun w =>
    match op (fs w) with
    | inr f' => (inr tt, log ev (mkWorld f' (ticks w) (events w)))
    | inl e => (inl (OSError e), w)
    end.

(** [Path.exists], [Path.is_symlink], [Path.is_dir]: a failing [stat]
    is [False]. *)
Definition exists_in (f : gmap (list string) inode) (p : Path) : bool :=
  match Fs.stat (cwd env) f p with inr _ => true | inl _ => false end.

Definition is_symlink_in (f : gmap (list string) inode) (p : Path) : bool :=
  match Fs.lstat (cwd env) f p with inr (Link _) => true | _ => false end.

Definition is_dir_in (f : gmap (list string) inode) (p : Path) : bool :=
  match Fs.stat (cwd env) f p with inr Dir => true | _ => false end.

Definition path_exists (p : Path) : M bool := query (fun f => exists_in f p).
Definition is_symlink (p : Path) : M bool := query (fun f => is_symlink_in f p).
Definition is_dir (p : Path) : M bool := query (fun f => is_dir_in f p).

(** [os.readlink] *)
Definition os_readlink (p : Path) : M Path := fun w =>
  match Fs.readlink (cwd env) (fs w) p with
  | inr t => (inr t, w)
  | inl e => (inl (OSError e), w)
  end.

Definition path_unlink (p : Path) : M unit :=
  syscall (SysUnlink p) (fun f => Fs.unlink (cwd env) f p).

Definition path_rename (p target : Path) : M unit :=
  syscall (SysRename p target) (fun f => Fs.rename (cwd env) f p target).

Definition symlink_to (p target : Path) : M unit :=
  syscall (SysSymlink target p) (fun f => Fs.symlink (cwd env) f target p).

Definition path_rmdir (p : Path) : M unit :=
  syscall (SysRmdir p) (fun f => Fs.rmdir (cwd env) f p).

(** [Path.iterdir]: the directory is listed at once, then each name is
    joined to the path. *)
Definition iterdir (p : Path) : M (list Path) := fun w =>
  match Fs.listdir (cwd env) (fs w) p with
  | inr names => (inr (map (fun n => p // mkPath false [n]) names), w)
  | inl e => (inl (OSError e), w)
  end.

(** [Path.mkdir(parents=False, exist_ok=...)] *)
Definition mkdir_once (p : Path) (exist_ok : bool) : M unit := fun w =>
  match Fs.mkdir (cwd env) (fs w) p with
  | inr f' => (inr tt, log (SysMkdir p) (mkWorld f' (ticks w) (events w)))
  | inl ENOENT => (inl (OSError ENOENT), w)
  | inl e =>
      if negb exist_ok || negb (is_dir_in (fs w) p)
      then (inl (OSError e), w) else (inr tt, w)
  end.

(** [Path.mkdir(parents=..., exist_ok=...)] of the path with anchor [a]
    and components [rev rparts]: on [FileNotFoundError] the parent is
    made first ([parents=True, exist_ok=True]) and the directory is then
    made without [parents]; the parent of a path without components is
    the path itself, and the error is raised again. *)
Fixpoint mkdir_rec (a : bool) (rparts : list string)
    (parents exist_ok : bool) : M unit :=
  fun w =>
    let self := mkPath a (rev rparts) in
    match Fs.mkdir (cwd env) (fs w) self with
    | inr f' => (inr tt, log (SysMkdir self) (mkWorld f' (ticks w) (events w)))
    | inl ENOENT =>
        if negb parents then (inl (OSError ENOENT), w)
        else
          match rparts with
          | [] => (inl (OSError ENOENT), w)
          | _ :: rparts' =>
              (mkdir_rec a rparts' true true;; mkdir_once self exist_ok) w
          end
    | inl e =>
        if negb exist_ok || negb (is_dir_in (fs w) self)
        then (inl (OSError e), w) else (inr tt, w)
    end.

Definition path_mkdir (p : Path) (parents exist_ok : bool) : M unit :=
  mkdir_rec (anchored p) (rev (parts p)) parents exist_ok.

(** [git init] leaves a [.git] directory in the directory it runs in;
    the other commands of the program write under [.git] only, which is
    not modelled further. *)
Definition git_effect (argv : list string) (l : list string)
    (f : gmap (list string) inode) : gmap (list string) inode :=
  if bool_decide (argv = ["git"; "init"]) then
    match f !! (l ++ [".git"]) with
    | Some _ => f
    | None =>
        <[l ++ [".git"; "HEAD"] := File "ref: refs/heads/master"]>
          (<[l ++ [".git"] := Dir]> f)
    end
  else f.

(** [subprocess.run(argv, cwd=dir, check=True).stdout] *)
Definition subprocess_run (argv : list string) (dir : Path) : M string :=
  fun w =>
    match Fs.locate (cwd env) (fs w) true dir with
    | inr l =>
        match Fs.get (fs w) l with
        | Some Dir =>
            match git env w dir argv with
            | Some out =>
                (inr out,
                 log (Run argv dir)
                   (mkWorld (git_effect argv l (fs w)) (ticks w) (events w)))
            | None => (inl (CalledProcessError argv), log (Run argv dir) w)
            end
        | Some _ => (inl (OSError ENOTDIR), w)
        | None => (inl (OSError ENOENT), w)
        end
    | inl e => (inl (OSError e), w)
    end.

(** *** The program *)

(** [backup_path], lines 85-90 *)
Definition backup_path (path : Path) : M Path :=
  t ← now;
  let basename :=
    PurePath.name path +:+ "-" +:+ DateTime.strftime FILENAME_DATETIME_FMT t in
  match PurePath.with_name path basename with
  | None => raise (ValueError (PurePath.to_str path +:+ " has an empty name"))
  | Some new_path =>
      e ← path_exists new_path;
      if e : bool then
        raise (ValueError
                 ("Backup path " +:+ PurePath.to_str new_path +:+ " already exists"))
      else mret new_path
  end.

(** lines 80-82 of [ensure_symlink_to] *)
Definition link_and_report (path dest : Path) : M bool :=
  print ("Linking " +:+ PurePath.to_str path +:+ " to " +:+ PurePath.to_str dest);;
  symlink_to path dest;;
  mret true.

(** [ensure_symlink_to], lines 58-82 *)
Definition ensure_symlink_to (path dest : Path) : M bool :=
  pe ← path_exists (PurePath.parent path);
  (if pe : bool then mret tt
   else print "Creating {path.parent}";;
        path_mkdir (PurePath.parent path) true false);;
  sl ← is_symlink path;
  if sl : bool then
    t ← os_readlink path;
    let actual_dest := PurePath.parent path // t in
    if bool_decide (actual_dest = dest) then
      print (PurePath.to_str path +:+ " is already a link to " +:+ PurePath.to_str dest);;
      mret false
    else
      print (PurePath.to_str path +:+ " is a link to " +:+ PurePath.to_str actual_dest
             +:+ " instead of " +:+ PurePath.to_str dest);;
      path_unlink path;;
      link_and_report path dest
  else
    e ← path_exists path;
    (if e : bool then
       backup ← backup_path path;
       print ("Renaming " +:+ PurePath.to_str path +:+ " to " +:+ PurePath.to_str backup);;
       path_rename path backup
     else mret tt);;
    link_and_report path dest.

(** [remove_empty_dirs], lines 93-108 *)
Definition remove_empty_dirs (path : Path) (other_than : list Path) : M unit :=
  children ← iterdir path;
  for_each children (fun child =>
    if bool_decide (child ∈ other_than) then mret tt
    else
      d ← is_dir child;
      if negb d then mret tt
      else
        entries ← iterdir child;
        let contents :=
          filter (fun p => PurePath.name p <> PREV_LINK) entries in
        match contents with
        | _ :: _ => mret tt
        | [] =>
            print (PurePath.to_str child +:+ " is empty, removing");;
            path_rmdir child
        end).

(** [git_changes], lines 139-147 *)
Definition STATUS : list string :=
  ["git"; "status"; "--porcelain"; "--untracked-files"].

Definition parse_status (repo : Path) (stdout : string) : list (string * Path) :=
  map (fun line => (Str.take 2 line, PurePath.join_str repo (Str.drop 3 line)))
      (Str.splitlines (Str.strip stdout)).

Definition git_changes (repo : Path) : M (list (string * Path)) :=
  out ← subprocess_run STATUS repo;
  mret (parse_status repo out).

(** lines 115-129 of [git_commit]: the branch taken when there are
    changes *)
Definition commit_changes (repo : Path) : M unit :=
  print (PurePath.to_str repo +:+ " has local changes, comitting");;
  t ← now;
  let date := DateTime.strftime DATE_FMT t in
  subprocess_run ["git"; "add"; "."] repo;;
  subprocess_run
    ["git"; "commit"; "-m"; date; "-m";
     "Temporary / scratch work until " +:+ date] repo;;
  mret tt.

(** [git_commit], lines 111-136 *)
Definition git_commit (repo : Path) : M unit :=
  e ← path_exists repo;
  if e : bool then
    entries ← git_changes repo;
    let changes :=
      existsb (fun e => bool_decide (PurePath.name e.2 <> PREV_LINK)) entries in
    if changes then commit_changes repo
    else print (PurePath.to_str repo +:+ " has no local changes")
  else
    print (PurePath.to_str repo +:+ " doesn't exist, creating");;
    path_mkdir repo true false;;
    print ("Running `git init` in " +:+ PurePath.to_str repo);;
    subprocess_run ["git"; "init"] repo;;
    mret tt.

(** [latest_day_dir], lines 150-172 *)
Definition sentinel : datetime := mkDT 1900 1 1 0 0 0.

Definition latest_step (acc : datetime * Path) (subdir : Path)
  : datetime * Path :=
  match DateTime.strptime (PurePath.name subdir) DATE_FMT with
  | None => acc
  | Some date => if DateTime.ltb acc.1 date then (date, subdir) else acc
  end.

Definition latest_day_dir (path : Path) : M (option Path) :=
  subdirs ← iterdir path;
  let r := fold_left latest_step subdirs (sentinel, path) in
  mret (if bool_decide (r.1 = sentinel) then None else Some r.2).

(** [main], lines 17-55, from the parsed arguments on *)
Definition main (args : Args) : M unit :=
  t ← now;
  let date := DateTime.strftime DATE_FMT t in
  let day_dir := PurePath.join_str (repo_path args) date in
  day_dir_is_ok ← path_exists day_dir;
  working_path_is_ok ← ensure_symlink_to (working_path args) day_dir;
  (if day_dir_is_ok && working_path_is_ok
   then print (PurePath.to_str day_dir +:+ " already exists, nothing to do.")
   else mret tt);;
  if full args || negb day_dir_is_ok || negb working_path_is_ok then
    git_commit (repo_path args);;
    remove_empty_dirs (repo_path args) [day_dir];;
    latest ← latest_day_dir (repo_path args);
    (if negb day_dir_is_ok
     then print ("Creating " +:+ PurePath.to_str day_dir);;
          path_mkdir day_dir true true
     else mret tt);;
    match latest with
    | Some l =>
        print ("Previous working path was " +:+ PurePath.to_str l);;
        let prev_link := PurePath.join_str (working_path args) PREV_LINK in
        ensure_symlink_to prev_link l;;
        mret tt
    | None => mret tt
    end
  else mret tt.

End Program.

(** What the loop of [latest_day_dir] has found among the names [seen]:
    nothing later than the sentinel, or the child with the latest date. *)
Definition latest_of (path : Path) (seen : list string)
    (acc : datetime * Path) : Prop :=
  (acc = (sentinel, path) /\
   forall n d, n ∈ seen -> DateTime.strptime n DATE_FMT = Some d ->
               DateTime.ltb sentinel d = false)
  \/
  (exists n,
      n ∈ seen /\ acc.2 = path // mkPath false [n] /\
      DateTime.strptime n DATE_FMT = Some acc.1 /\
      DateTime.ltb sentinel acc.1 = true /\
      forall n' d', n' ∈ seen -> DateTime.strptime n' DATE_FMT = Some d' ->
                    DateTime.ltb acc.1 d' = false).

(** ** Worlds of the examples

    A user [u] with the repository at [/home/u/repo] and the working path
    [/home/u/scratch]; the clock stands still during a run and [git]
    succeeds, answering [status] to [git status]. *)

Definition env_on (t : datetime) (status : string) : Env :=
  mkEnv [] (fun _ => t)
    (fun _ _ argv => Some (if bool_decide (argv = STATUS) then status else "")).

(** the line feed *)
Definition nl : string := String (ascii_of_nat 10) EmptyString.

Definition repo_u : Path := mkPath true ["home"; "u"; "repo"].
Definition scratch_u : Path := mkPath true ["home"; "u"; "scratch"].
Definition day_u (d : string) : Path := mkPath true ["home"; "u"; "repo"; d].
Definition prev_of (d : string) : Path :=
  mkPath true ["home"; "u"; "repo"; d; "prev"].
Definition args_u (full : bool) : Args := mkArgs repo_u scratch_u full.

Definition jan3 : datetime := mkDT 2024 1 3 9 30 0.
Definition june15 : datetime := mkDT 2024 6 15 12 0 0.

Definition home_u : list (list string * inode) :=
  [(["home"], Dir); (["home"; "u"], Dir)].

Definition repo_tree : list (list string * inode) :=
  home_u ++
  [(["home"; "u"; "repo"], Dir);
   (["home"; "u"; "repo"; ".git"], Dir);
   (["home"; "u"; "repo"; ".git"; "HEAD"], File "ref: refs/heads/master")].

(** nothing but the home directory *)
Definition fresh : World := mkWorld (list_to_map home_u) 0 [].

(** two days with content, the working path still at the second *)
Definition two_days : World :=
  mkWorld
    (list_to_map
       (repo_tree ++
        [(["home"; "u"; "repo"; "2024-01-01"], Dir);
         (["home"; "u"; "repo"; "2024-01-01"; "a.txt"], File "a");
         (["home"; "u"; "repo"; "2024-01-02"], Dir);
         (["home"; "u"; "repo"; "2024-01-02"; "b.txt"], File "b");
         (["home"; "u"; "scratch"], Link (day_u "2024-01-02"))]))
    0 [].

(** a day directory that holds a [prev] link and nothing else *)
Definition prev_only : World :=
  mkWorld
    (list_to_map
       (repo_tree ++
        [(["home"; "u"; "repo"; "2024-01-01"], Dir);
         (["home"; "u"; "repo"; "2024-01-01"; "a.txt"], File "a");
         (["home"; "u"; "repo"; "2024-01-02"], Dir);
         (["home"; "u"; "repo"; "2024-01-02"; "prev"], Link (day_u "2024-01-01"))]))
    0 [].

(** the same tree with the second day empty *)
Definition empty_day : World :=
  mkWorld (delete ["home"; "u"; "repo"; "2024-01-02"; "prev"] (fs prev_only)) 0 [].

(** today's directory is there and the working path points at it *)
Definition settled : World :=
  mkWorld
    (list_to_map
       (repo_tree ++
        [(["home"; "u"; "repo"; "2024-06-15"], Dir);
         (["home"; "u"; "repo"; "2024-06-15"; "notes.txt"], File "n");
         (["home"; "u"; "scratch"], Link (day_u "2024-06-15"))]))
    0 [].

(** today's directory is there, the working path is yesterday's *)
Definition stale : World :=
  mkWorld
    (list_to_map
       (repo_tree ++
        [(["home"; "u"; "repo"; "2024-06-14"], Dir);
         (["home"; "u"; "repo"; "2024-06-14"; "work.txt"], File "w");
         (["home"; "u"; "repo"; "2024-06-15"], Dir);
         (["home"; "u"; "scratch"], Link (day_u "2024-06-14"))]))
    0 [].

(** the only child of the repository is dated 1850 *)
Definition old_day : World :=
  mkWorld
    (list_to_map
       (home_u ++
        [(["home"; "u"; "repo"], Dir);
         (["home"; "u"; "repo"; "1850-01-01"], Dir)]))
    0 [].

(** the working path is a directory with a file in it *)
Definition occupied : World :=
  mkWorld
    (list_to_map
       (repo_tree ++
        [(["home"; "u"; "repo"; "2024-06-15"], Dir);
         (["home"; "u"; "scratch"], Dir);
         (["home"; "u"; "scratch"; "keep.txt"], File "k")]))
    0 [].

(** the working path is a regular file *)
Definition occupied_by_file : World :=
  mkWorld
    (list_to_map
       (repo_tree ++
        [(["home"; "u"; "repo"; "2024-06-15"], Dir);
         (["home"; "u"; "scratch"], File "jottings")]))
    0 [].

(** the same, and the backup name of this second is taken *)
Definition collision : World :=
  mkWorld
    (<[["home"; "u"; "scratch-2024-06-15T12_00_00"] := File "old"]> (fs occupied))
    0 [].

(** [/home/u/r] is another name of the repository, and the working path
    goes through it *)
Definition aliased : World :=
  mkWorld
    (list_to_map
       (repo_tree ++
        [(["home"; "u"; "repo"; "2024-06-15"], Dir);
         (["home"; "u"; "r"], Link repo_u);
         (["home"; "u"; "scratch"],
          Link (mkPath true ["home"; "u"; "r"; "2024-06-15"]))]))
    0 [].

(** the double quote *)
Definition dq : string := String (ascii_of_nat 34) EmptyString.

(** today's directory, the files [xprev] and [prev] beside it, and a
    file [prev] of the user in a directory whose name has a blank *)
Definition odd_names : World :=
  mkWorld
    (list_to_map
       (repo_tree ++
        [(["home"; "u"; "repo"; "2024-06-15"], Dir);
         (["home"; "u"; "repo"; "2024-06-15"; "notes.txt"], File "n");
         (["home"; "u"; "repo"; "2024-06-15"; "my notes"], Dir);
         (["home"; "u"; "repo"; "2024-06-15"; "my notes"; "prev"], File "p");
         (["home"; "u"; "repo"; "prev"], File "q");
         (["home"; "u"; "repo"; "xprev"], File "x");
         (["home"; "u"; "scratch"], Link (day_u "2024-06-15"))]))
    0 [].

(** ** Environments and paths of the further examples *)

(** [git] fails whatever it is asked *)
Definition env_git_down : Env :=
  mkEnv [] (fun _ => june15) (fun _ _ _ => None).

(** [git status] reports a new file, every other command fails *)
Definition env_add_fails : Env :=
  mkEnv [] (fun _ => june15)
    (fun _ _ argv =>
       if bool_decide (argv = STATUS) then Some "?? 2024-06-15/notes.txt"
       else None).

(** one second after [june15] *)
Definition june15_later : datetime := mkDT 2024 6 15 12 0 1.

(** a working path two directories below the home directory *)
Definition deep_scratch : Path :=
  mkPath true ["home"; "u"; "tmp"; "today"; "scratch"].

(** ** Notions of the further properties *)

(** What [remove_empty_dirs] may add to the log: printed lines, and
    [rmdir] of children of the root that are not protected. *)
Definition prune_event (root : Path) (other_than : list Path) (e : event)
  : Prop :=
  match e with
  | Printed _ => True
  | SysRmdir p => (p ∉ other_than) /\ exists n, p = root // mkPath false [n]
  | _ => False
  end.

(** [w'] is [w] with some directories gone and some [prune_event]s
    logged: everything that is not a directory is where it was. *)
Definition pruned (root : Path) (other_than : list Path) (w w' : World)
  : Prop :=
  ticks w' = ticks w /\
  fs w' ⊆ fs w /\
  (forall l i, fs w !! l = Some i -> i <> Dir -> fs w' !! l = Some i) /\
  exists new, events w' = events w ++ new /\
              Forall (prune_event root other_than) new.

(** The fields of a [datetime] within the bounds Python keeps them in
    (a year has at most four digits). *)
Definition in_range (t : datetime) : Prop :=
  (year t < 10 * 1000 /\ month t <= 12 /\ day t <= 31 /\
   hour t <= 23 /\ minute t <= 59 /\ second t <= 59)%nat.

Definition is_mkdir (e : event) : Prop :=
  match e with SysMkdir _ => True | _ => False end.

(** [w'] is [w] after some [mkdir]s and nothing else. *)
Definition only_mkdirs (w w' : World) : Prop :=
  ticks w' = ticks w /\
  exists mk, events w' = events w ++ mk /\ Forall is_mkdir mk.

(** Whatever the world, [m] adds to the log only events that satisfy
    [Q] (and whether it returns or raises). *)
Definition bounded {A} (Q : event -> Prop) (m : M A) : Prop :=
  forall w, exists new, events (m w).2 = events w ++ new /\ Forall Q new.

(** The effects [main] may have, for the arguments [args] and today's
    directory [day_dir]: prints and [mkdir]s; [unlink] and [rename] of
    the working path and of its [prev] entry only, a rename going to
    another name in the same directory; links at these two paths, to
    today's directory and to a child of the repository; [rmdir] of
    children of the repository other than today's directory; and the four
    [git] commands, run in the repository. *)
Definition main_event (args : Args) (day_dir : Path) (e : event) : Prop :=
  let prev_link := PurePath.join_str (working_path args) PREV_LINK in
  match e with
  | Printed _ | SysMkdir _ => True
  | SysUnlink p => p = working_path args \/ p = prev_link
  | SysRename p q =>
      (p = working_path args \/ p = prev_link) /\
      PurePath.parent q = PurePath.parent p /\ q <> p
  | SysSymlink t p =>
      (p = working_path args /\ t = day_dir) \/
      (p = prev_link /\ exists n, t = repo_path args // mkPath false [n])
  | SysRmdir p =>
      p <> day_dir /\ exists n, p = repo_path args // mkPath false [n]
  | Run argv dir =>
      dir = repo_path args /\
      (argv = STATUS \/ argv = ["git"; "add"; "."] \/ argv = ["git"; "init"] \/
       exists d, argv = ["git"; "commit"; "-m"; d; "-m";
                         "Temporary / scratch work until " +:+ d])
  end.

(** Text as [git] prints it: every line ended by a line feed. *)
Fixpoint unlines (ls : list string) : string :=
  match ls with
  | [] => EmptyString
  | l :: ls' => l +:+ nl +:+ unlines ls'
  end.

Fixpoint all_chars (P : ascii -> bool) (s : string) : bool :=
  match s with
  | EmptyString => true
  | String a s' => P a && all_chars P s'
  end.

(** no line boundary inside *)
Definition one_line (s : string) : bool :=
  all_chars (fun a => negb (Str.islinebreak a)) s.

(** not empty, and the last character is not white space *)
Fixpoint ends_visible (s : string) : bool :=
  match s with
  | EmptyString => false
  | String a EmptyString => negb (Str.isspace a)
  | String _ s' => ends_visible s'
  end.

(** A line of [git status --porcelain]: the two status letters, a blank
    and the path. *)
Definition render (e : string * Path) : string :=
  e.1 +:+ " " +:+ PurePath.to_str e.2.

(** a name as [pathlib] keeps it: not empty, not [.], without [/] *)
Definition component_ok (c : string) : Prop :=
  c <> "" /\ c <> "." /\ all_chars (fun a => negb (Ascii.eqb a "/")) c = true.

(** an entry that is printed on one line, with two status letters and a
    relative path *)
Definition entry_ok (e : string * Path) : Prop :=
  String.length e.1 = 2 /\ one_line (render e) = true /\
  anchored e.2 = false /\ Forall component_ok (parts e.2).

(** A filesystem in which every entry lies in a directory. *)
Definition wf (f : gmap (list string) inode) : Prop :=
  forall l c i, f !! (l ++ [c]) = Some i -> Fs.get f l = Some Dir.

(** [w'] has every entry of [w] and, if every entry of [w] lies in a
    directory (the lookups starting at [start], a directory), so does
    every entry of [w']. *)
Definition grown (start : list string) (w w' : World) : Prop :=
  fs w ⊆ fs w' /\
  (wf (fs w) -> Fs.get (fs w) start = Some Dir -> wf (fs w')).

(** * Path resolution *)

Section WalkFacts.

Variable f : gmap (list string) inode.

Lemma walk_nil fuel fl cur : Fs.walk fuel f fl cur [] = inr cur.
Proof. destruct fuel; reflexivity. Qed.

Lemma walk_cons fuel fl cur c rest :
  Fs.walk fuel f fl cur (c :: rest) =
  match Fs.get f cur with
  | Some Dir =>
      if String.eqb c ".." then Fs.walk fuel f fl (removelast cur) rest
      else
        match f !! (cur ++ [c]) with
        | Some (Link t) =>
            if bool_decide (rest = []) && negb fl then inr (cur ++ [c])
            else
              match fuel with
              | 0 => inl ELOOP
              | S fuel' =>
                  Fs.walk fuel' f fl (if anchored t then [] else cur)
                    (parts t ++ rest)
              end
        | _ => Fs.walk fuel f fl (cur ++ [c]) rest
        end
  | Some _ => inl ENOTDIR
  | None => inl ENOENT
  end.
Proof. destruct fuel; reflexivity. Qed.

Lemma get_snoc cur c : Fs.get f (cur ++ [c]) = f !! (cur ++ [c]).
Proof. destruct cur; reflexivity. Qed.

(** Every proper prefix of a path that resolves names a directory. *)
Lemma walk_prefix_dir fuel : forall fl cur pre c rest l,
  Fs.walk fuel f fl cur (pre ++ c :: rest) = inr l ->
  exists d, Fs.walk fuel f true cur pre = inr d /\ Fs.get f d = Some Dir.
Proof.
  induction fuel as [|fuel IHfuel]; intros fl cur pre; revert cur;
    induction pre as [|p pre IH]; intros cur c rest l H; cbn [app] in H.
  - rewrite walk_cons in H. rewrite walk_nil.
    destruct (Fs.get f cur) as [[]|] eqn:E; try discriminate. eauto.
  - rewrite walk_cons in H |- *.
    destruct (Fs.get f cur) as [[]|]; try discriminate.
    destruct (String.eqb p ".."); [eauto|].
    destruct (f !! (cur ++ [p])) as [[]|]; eauto.
    rewrite andb_false_r.
    destruct (bool_decide (pre ++ c :: rest = [])) eqn:E; simpl in H.
    + apply bool_decide_eq_true in E. destruct pre; discriminate.
    + destruct (negb fl); discriminate.
  - rewrite walk_cons in H. rewrite walk_nil.
    destruct (Fs.get f cur) as [[]|] eqn:E; try discriminate. eauto.
  - rewrite walk_cons in H |- *.
    destruct (Fs.get f cur) as [[]|]; try discriminate.
    destruct (String.eqb p ".."); [eauto|].
    destruct (f !! (cur ++ [p])) as [[]|]; eauto.
    rewrite andb_false_r.
    destruct (bool_decide (pre ++ c :: rest = [])) eqn:E; simpl in H.
    + apply bool_decide_eq_true in E. destruct pre; discriminate.
    + rewrite app_assoc in H. eauto.
Qed.

(** Without a symbolic link in the last position, following it or not
    is the same lookup. *)
Lemma walk_follow_irrelevant fuel : forall cur comps,
  match Fs.walk fuel f false cur comps with
  | inr l => forall t, Fs.get f l <> Some (Link t)
  | inl _ => True
  end ->
  Fs.walk fuel f true cur comps = Fs.walk fuel f false cur comps.
Proof.
  induction fuel as [|fuel IHfuel]; intros cur comps; revert cur;
    induction comps as [|c rest IH]; intros cur H.
  - rewrite !walk_nil. reflexivity.
  - rewrite walk_cons in H. rewrite !walk_cons.
    destruct (Fs.get f cur) as [[]|]; try reflexivity.
    destruct (String.eqb c ".."); [auto|].
    destruct (f !! (cur ++ [c])) as [[]|] eqn:E; auto.
    rewrite andb_false_r.
    destruct (bool_decide (rest = [])); simpl in *; [|reflexivity].
    exfalso. apply (H target). rewrite get_snoc. exact E.
  - rewrite !walk_nil. reflexivity.
  - rewrite walk_cons in H. rewrite !walk_cons.
    destruct (Fs.get f cur) as [[]|]; try reflexivity.
    destruct (String.eqb c ".."); [auto|].
    destruct (f !! (cur ++ [c])) as [[]|] eqn:E; auto.
    rewrite andb_false_r.
    destruct (bool_decide (rest = [])); simpl in *; [|auto].
    exfalso. apply (H target). rewrite get_snoc. exact E.
Qed.

End WalkFacts.

(** A lookup that does not follow the last component is not disturbed by
    new entries. *)
Lemma walk_mono (f f' : gmap (list string) inode) fuel :
  f ⊆ f' ->
  forall cur comps l,
    Fs.walk fuel f false cur comps = inr l ->
    Fs.walk fuel f' false cur comps = inr l.
Proof.
  intros Hsub.
  assert (Hget : forall k i, Fs.get f k = Some i -> Fs.get f' k = Some i).
  { intros [|x k] i; simpl; [auto|]. intros E. exact (lookup_weaken _ _ _ _ E Hsub). }
  induction fuel as [|fuel IHfuel]; intros cur comps; revert cur;
    induction comps as [|c rest IH]; intros cur l H.
  - rewrite walk_nil in *. assumption.
  - rewrite walk_cons in H. rewrite walk_cons.
    destruct (Fs.get f cur) as [[]|] eqn:Ec; try discriminate.
    rewrite (Hget _ _ Ec).
    destruct (String.eqb c ".."); [auto|].
    destruct (f !! (cur ++ [c])) as [i|] eqn:E.
    + rewrite (lookup_weaken _ _ _ _ E Hsub). destruct i; auto.
    + destruct rest as [|c' rest'].
      * rewrite walk_nil in H. destruct (f' !! (cur ++ [c])) as [[]|];
          rewrite ?walk_nil; auto.
      * specialize (IH _ _ H). rewrite walk_cons in H.
        rewrite get_snoc, E in H. discriminate.
  - rewrite walk_nil in *. assumption.
  - rewrite walk_cons in H. rewrite walk_cons.
    destruct (Fs.get f cur) as [[]|] eqn:Ec; try discriminate.
    rewrite (Hget _ _ Ec).
    destruct (String.eqb c ".."); [auto|].
    destruct (f !! (cur ++ [c])) as [i|] eqn:E.
    + rewrite (lookup_weaken _ _ _ _ E Hsub). destruct i; auto.
      destruct (bool_decide (rest = []) && negb false); auto.
    + destruct rest as [|c' rest'].
      * rewrite walk_nil in H. destruct (f' !! (cur ++ [c])) as [[]|];
          rewrite ?walk_nil; auto.
      * specialize (IH _ _ H). rewrite walk_cons in H.
        rewrite get_snoc, E in H. discriminate.
Qed.

(** * The calls of the program, as equations *)

Lemma bind_unfold {A B} (m : M A) (k : A -> M B) w :
  (m ≫= k) w =
  match m w with
  | (inr a, w') => k a w'
  | (inl e, w') => (inl e, w')
  end.
Proof. reflexivity. Qed.

Section Calls.

Variable env : Env.

Lemma lstat_parent_exists f path i :
  Fs.lstat (cwd env) f path = inr i ->
  exists_in env f (PurePath.parent path) = true.
Proof.
  unfold Fs.lstat, exists_in, Fs.stat, Fs.inode_at, Fs.locate, PurePath.parent.
  destruct path as [a ps]; cbn [anchored parts].
  destruct ps as [|p ps'] using rev_ind.
  - cbn [removelast]. rewrite !walk_nil. intros H.
    destruct (Fs.get f _); [reflexivity|discriminate].
  - rewrite removelast_last.
    destruct (Fs.walk _ f false _ (ps' ++ [p])) as [e|l] eqn:E; [discriminate|].
    intros _. apply walk_prefix_dir in E as (d & -> & ->). reflexivity.
Qed.

Lemma lstat_stat f path i :
  Fs.lstat (cwd env) f path = inr i ->
  (forall t, i <> Link t) ->
  Fs.stat (cwd env) f path = inr i.
Proof.
  unfold Fs.lstat, Fs.stat, Fs.inode_at, Fs.locate. intros H Hi.
  rewrite walk_follow_irrelevant; [assumption|].
  destruct (Fs.walk _ f false _ _) as [e|l]; [exact I|].
  intros t Ht. rewrite Ht in H. injection H as <-. eapply Hi; reflexivity.
Qed.

Lemma lstat_symlink f f' target path :
  Fs.symlink (cwd env) f target path = inr f' ->
  Fs.lstat (cwd env) f' path = inr (Link target).
Proof.
  unfold Fs.symlink, Fs.create, Fs.lstat, Fs.inode_at, Fs.locate.
  destruct (Fs.walk _ f false _ _) as [e|l] eqn:E; [discriminate|].
  destruct (Fs.get f l) eqn:G; [discriminate|]. intros [= <-].
  assert (Hl : f !! l = None) by (destruct l; [discriminate|exact G]).
  rewrite (walk_mono f (<[l:=Link target]> f) _ (insert_subseteq _ _ _ Hl) _ _ _ E).
  destruct l; [discriminate|]. cbn [Fs.get]. rewrite lookup_insert_eq. reflexivity.
Qed.

End Calls.

Arguments Fs.walk : simpl never.
Arguments Fs.stat : simpl never.
Arguments Fs.lstat : simpl never.
Arguments Fs.readlink : simpl never.
Arguments Fs.symlink : simpl never.
Arguments Fs.unlink : simpl never.
Arguments Fs.rename : simpl never.
Arguments Fs.mkdir : simpl never.
Arguments Fs.rmdir : simpl never.
Arguments Fs.listdir : simpl never.
Arguments Fs.locate : simpl never.
Arguments exists_in : simpl never.
Arguments is_symlink_in : simpl never.
Arguments is_dir_in : simpl never.
Arguments PurePath.to_str : simpl never.
Arguments PurePath.parent : simpl never.
Arguments PurePath.join : simpl never.
Arguments PurePath.join_str : simpl never.
Arguments PurePath.name : simpl never.
Arguments PurePath.with_name : simpl never.
Arguments String.append : simpl never.
Arguments DateTime.strftime : simpl never.
Arguments DateTime.strptime : simpl never.
Arguments DateTime.ltb : simpl never.
Arguments git_effect : simpl never.

Ltac mstep := rewrite bind_unfold; simpl.

(** * [ensure_symlink_to] *)

Section EnsureSymlink.

Variable env : Env.

Lemma is_symlink_in_lstat f path :
  is_symlink_in env f path =
  match Fs.lstat (cwd env) f path with inr (Link _) => true | _ => false end.
Proof. reflexivity. Qed.

Lemma readlink_lstat f path t :
  Fs.lstat (cwd env) f path = inr (Link t) ->
  Fs.readlink (cwd env) f path = inr t.
Proof. unfold Fs.readlink. intros ->. reflexivity. Qed.

(** The call on a path that is a symbolic link. *)
Lemma ensure_on_link path dest w t :
  Fs.lstat (cwd env) (fs w) path = inr (Link t) ->
  ensure_symlink_to env path dest w =
  if bool_decide (PurePath.parent path // t = dest) then
    (inr false,
     log (Printed (PurePath.to_str path +:+ " is already a link to "
                 +:+ PurePath.to_str dest)) w)
  else
    (path_unlink env path;; link_and_report env path dest)
      (log (Printed (PurePath.to_str path +:+ " is a link to "
                   +:+ PurePath.to_str (PurePath.parent path // t)
                   +:+ " instead of " +:+ PurePath.to_str dest)) w).
Proof.
  intros Hl. unfold ensure_symlink_to.
  mstep. rewrite (lstat_parent_exists _ _ _ _ Hl).
  mstep. mstep. rewrite is_symlink_in_lstat, Hl.
  mstep. unfold os_readlink. rewrite (readlink_lstat _ _ _ Hl).
  destruct (bool_decide (PurePath.parent path // t = dest)); reflexivity.
Qed.

(** The call on a path that is a file or a directory. *)
Lemma ensure_on_real path dest w i :
  Fs.lstat (cwd env) (fs w) path = inr i ->
  (forall t, i <> Link t) ->
  ensure_symlink_to env path dest w =
  ((backup ← backup_path env path;
    print ("Renaming " +:+ PurePath.to_str path +:+ " to "
           +:+ PurePath.to_str backup);;
    path_rename env path backup);;
   link_and_report env path dest) w.
Proof.
  intros Hl Hi. unfold ensure_symlink_to.
  mstep. rewrite (lstat_parent_exists _ _ _ _ Hl).
  mstep. mstep. rewrite is_symlink_in_lstat, Hl.
  replace (match i with Link _ => true | _ => false end) with false
    by (destruct i; try reflexivity; exfalso; eapply Hi; reflexivity).
  mstep. unfold exists_in. rewrite (lstat_stat _ _ _ _ Hl Hi). reflexivity.
Qed.

Lemma backup_path_run path w :
  backup_path env path w =
  let w' := mkWorld (fs w) (S (ticks w)) (events w) in
  match PurePath.with_name path
          (PurePath.name path +:+ "-" +:+
           DateTime.strftime FILENAME_DATETIME_FMT (clock env (ticks w))) with
  | None => (inl (ValueError (PurePath.to_str path +:+ " has an empty name")), w')
  | Some new_path =>
      if exists_in env (fs w) new_path then
        (inl (ValueError ("Backup path " +:+ PurePath.to_str new_path
                          +:+ " already exists")), w')
      else (inr new_path, w')
  end.
Proof.
  unfold backup_path. mstep.
  destruct (PurePath.with_name _ _) as [new_path|]; [|reflexivity].
  mstep. destruct (exists_in env (fs w) new_path); reflexivity.
Qed.

Lemma link_and_report_run path dest w :
  link_and_report env path dest w =
  let line := Printed ("Linking " +:+ PurePath.to_str path +:+ " to "
                     +:+ PurePath.to_str dest) in
  match Fs.symlink (cwd env) (fs w) dest path with
  | inr f' =>
      (inr true,
       mkWorld f' (ticks w) (events w ++ [line; SysSymlink dest path]))
  | inl e => (inl (OSError e), log line w)
  end.
Proof.
  unfold link_and_report. mstep. mstep. unfold symlink_to, syscall. simpl.
  destruct (Fs.symlink _ _ _ _); [reflexivity|].
  unfold log. simpl. rewrite <- app_assoc. reflexivity.
Qed.

Lemma bind_inr {A B} (m : M A) (k : A -> M B) w b :
  ((m ≫= k) w).1 = inr b ->
  exists a w1, m w = (inr a, w1) /\ (m ≫= k) w = k a w1.
Proof.
  rewrite bind_unfold. destruct (m w) as [[e|a] w1]; simpl;
    [discriminate|eauto].
Qed.

Lemma link_and_report_ok path dest w r :
  (link_and_report env path dest w).1 = inr r ->
  r = true /\
  Fs.symlink (cwd env) (fs w) dest path
    = inr (fs (link_and_report env path dest w).2) /\
  Fs.lstat (cwd env) (fs (link_and_report env path dest w).2) path
    = inr (Link dest) /\
  events (link_and_report env path dest w).2 =
    events w ++ [Printed ("Linking " +:+ PurePath.to_str path +:+ " to "
                        +:+ PurePath.to_str dest); SysSymlink dest path].
Proof.
  rewrite link_and_report_run. cbv zeta.
  destruct (Fs.symlink _ _ _ _) as [e|f'] eqn:E; simpl; [discriminate|].
  intros [= <-]. repeat split. eapply lstat_symlink; eassumption.
Qed.

Lemma unlink_link f path t :
  Fs.lstat (cwd env) f path = inr (Link t) ->
  exists f1, Fs.unlink (cwd env) f path = inr f1.
Proof.
  unfold Fs.lstat, Fs.inode_at, Fs.unlink.
  destruct (Fs.locate _ _ _ _) as [e|l]; [discriminate|].
  destruct (Fs.get f l) as [i|]; [|discriminate].
  intros [= ->]. eauto.
Qed.

(** The final state of a successful call, whatever was there. *)
Lemma ensure_result_is_link path dest w r :
  (ensure_symlink_to env path dest w).1 = inr r ->
  exists t,
    Fs.lstat (cwd env) (fs (ensure_symlink_to env path dest w).2) path
      = inr (Link t) /\
    if r then t = dest else PurePath.parent path // t = dest.
Proof.
  unfold ensure_symlink_to. intros H.
  apply bind_inr in H as H1. destruct H1 as (pe & w0 & _ & E0).
  rewrite E0 in H |- *. clear E0.
  apply bind_inr in H as H1. destruct H1 as ([] & w1 & _ & E1).
  rewrite E1 in H |- *. clear E1.
  rewrite bind_unfold in H |- *. simpl in H |- *.
  destruct (is_symlink_in env (fs w1) path) eqn:Esl.
  - rewrite bind_unfold in H |- *. unfold os_readlink in H |- *.
    rewrite is_symlink_in_lstat in Esl.
    destruct (Fs.lstat (cwd env) (fs w1) path) as [e|[c| |t]] eqn:El;
      try discriminate.
    rewrite (readlink_lstat _ _ _ El) in H |- *.
    destruct (bool_decide (PurePath.parent path // t = dest)) eqn:Eq.
    + simpl in H |- *. injection H as <-. exists t. split; [exact El|].
      apply bool_decide_eq_true in Eq. exact Eq.
    + apply bind_inr in H as H1. destruct H1 as ([] & w2 & _ & E2).
      rewrite E2 in H |- *. clear E2.
      apply bind_inr in H as H1. destruct H1 as ([] & w3 & _ & E3).
      rewrite E3 in H |- *. clear E3.
      destruct (link_and_report_ok _ _ _ _ H) as (-> & _ & Hl & _). eauto.
  - apply bind_inr in H as H1. destruct H1 as (e & w2 & _ & E2).
    rewrite E2 in H |- *. clear E2.
    apply bind_inr in H as H1. destruct H1 as ([] & w3 & _ & E3).
    rewrite E3 in H |- *. clear E3.
    destruct (link_and_report_ok _ _ _ _ H) as (-> & _ & Hl & _). eauto.
Qed.

Lemma ensure_on_real_ok path dest w i r :
  Fs.lstat (cwd env) (fs w) path = inr i ->
  (forall t, i <> Link t) ->
  (ensure_symlink_to env path dest w).1 = inr r ->
  r = true /\
  exists backup f1,
    PurePath.with_name path
      (PurePath.name path +:+ "-" +:+
       DateTime.strftime FILENAME_DATETIME_FMT (clock env (ticks w)))
      = Some backup /\
    exists_in env (fs w) backup = false /\
    Fs.rename (cwd env) (fs w) path backup = inr f1 /\
    Fs.symlink (cwd env) f1 dest path
      = inr (fs (ensure_symlink_to env path dest w).2) /\
    events (ensure_symlink_to env path dest w).2 =
      events w ++
        [Printed ("Renaming " +:+ PurePath.to_str path +:+ " to "
                +:+ PurePath.to_str backup);
         SysRename path backup;
         Printed ("Linking " +:+ PurePath.to_str path +:+ " to "
                +:+ PurePath.to_str dest);
         SysSymlink dest path].
Proof.
  intros Hl Hi. rewrite (ensure_on_real _ _ _ _ Hl Hi).
  rewrite bind_unfold. rewrite bind_unfold. rewrite backup_path_run.
  cbv zeta.
  destruct (PurePath.with_name _ _) as [backup|]; [|discriminate].
  destruct (exists_in env (fs w) backup) eqn:Ee; [discriminate|].
  rewrite bind_unfold. simpl.
  unfold path_rename, syscall. simpl.
  destruct (Fs.rename _ _ _ _) as [e|f1] eqn:Er; simpl; [discriminate|].
  rewrite link_and_report_run. simpl.
  destruct (Fs.symlink _ _ _ _) as [e|f2] eqn:Es; simpl; [discriminate|].
  intros [= <-]. split; [reflexivity|]. exists backup, f1.
  repeat split; try assumption. rewrite <- !app_assoc. reflexivity.
Qed.

Lemma ensure_on_wrong_link_run path dest w t :
  Fs.lstat (cwd env) (fs w) path = inr (Link t) ->
  PurePath.parent path // t <> dest ->
  exists f1,
    Fs.unlink (cwd env) (fs w) path = inr f1 /\
    let said :=
      [Printed (PurePath.to_str path +:+ " is a link to "
              +:+ PurePath.to_str (PurePath.parent path // t)
              +:+ " instead of " +:+ PurePath.to_str dest);
       SysUnlink path;
       Printed ("Linking " +:+ PurePath.to_str path +:+ " to "
              +:+ PurePath.to_str dest)] in
    ensure_symlink_to env path dest w =
    match Fs.symlink (cwd env) f1 dest path with
    | inr f2 =>
        (inr true,
         mkWorld f2 (ticks w) (events w ++ said ++ [SysSymlink dest path]))
    | inl e => (inl (OSError e), mkWorld f1 (ticks w) (events w ++ said))
    end.
Proof.
  intros Hl Hne. destruct (unlink_link _ _ _ Hl) as [f1 Hu].
  exists f1. split; [exact Hu|]. cbv zeta.
  rewrite (ensure_on_link _ _ _ _ Hl).
  rewrite bool_decide_eq_false_2 by exact Hne.
  rewrite bind_unfold. unfold path_unlink, syscall. simpl. rewrite Hu.
  rewrite link_and_report_run. simpl.
  destruct (Fs.symlink _ _ _ _) as [e|f2]; unfold log; simpl;
    rewrite <- !app_assoc; reflexivity.
Qed.

(** X13.  On a target that [path.parent / dest] leaves as it is (an
    absolute [dest], or a [path] of one component), a call that follows
    a call that returned finds the link the first has left: it prints
    one line, changes nothing and returns [False]. *)
Lemma ensure_symlink_to_twice path dest w r :
  PurePath.parent path // dest = dest ->
  (ensure_symlink_to env path dest w).1 = inr r ->
  let w1 := (ensure_symlink_to env path dest w).2 in
  ensure_symlink_to env path dest w1 =
    (inr false,
     log (Printed (PurePath.to_str path +:+ " is already a link to "
                   +:+ PurePath.to_str dest)) w1).
Proof.
  intros Habs H w1.
  destruct (ensure_result_is_link _ _ _ _ H) as (t & Hl & Ht).
  rewrite (ensure_on_link _ _ _ _ Hl).
  rewrite bool_decide_eq_true_2; [reflexivity|].
  destruct r; [subst t; exact Habs|exact Ht].
Qed.




(** C8.  On a file or a directory whose backup path (the name, [-], the
    time stamp of the moment) exists already, [ensure_symlink_to] raises
    [ValueError]; it has read the clock and done nothing else: the
    filesystem is the one it found and the log has no new entry. *)
Theorem ensure_symlink_to_backup_collision path dest w i new_path :
  Fs.lstat (cwd env) (fs w) path = inr i ->
  (forall t, i <> Link t) ->
  PurePath.with_name path
    (PurePath.name path +:+ "-" +:+
     DateTime.strftime FILENAME_DATETIME_FMT (clock env (ticks w)))
    = Some new_path ->
  exists_in env (fs w) new_path = true ->
  ensure_symlink_to env path dest w =
    (inl (ValueError ("Backup path " +:+ PurePath.to_str new_path
                      +:+ " already exists")),
     mkWorld (fs w) (S (ticks w)) (events w)).
Proof.
  intros Hl Hi Hn He. rewrite (ensure_on_real _ _ _ _ Hl Hi).
  rewrite bind_unfold. rewrite bind_unfold. rewrite backup_path_run.
  cbv zeta. rewrite Hn, He. reflexivity.
Qed.

(** C9.  A path that is a symbolic link is judged by one comparison:
    [path.parent] joined with the stored target against [dest], as path
    values.  Equal: one line is printed and [False] returned.  Different
    (however the link resolves): the link is unlinked and a link to
    [dest] is made; the call returns [True], unless making the link
    fails. *)
Theorem ensure_symlink_to_compares_unresolved path dest w t :
  Fs.lstat (cwd env) (fs w) path = inr (Link t) ->
  (PurePath.parent path // t = dest ->
   ensure_symlink_to env path dest w =
     (inr false,
      log (Printed (PurePath.to_str path +:+ " is already a link to "
                  +:+ PurePath.to_str dest)) w)) /\
  (PurePath.parent path // t <> dest ->
   exists f1,
     Fs.unlink (cwd env) (fs w) path = inr f1 /\
     let said :=
       [Printed (PurePath.to_str path +:+ " is a link to "
               +:+ PurePath.to_str (PurePath.parent path // t)
               +:+ " instead of " +:+ PurePath.to_str dest);
        SysUnlink path;
        Printed ("Linking " +:+ PurePath.to_str path +:+ " to "
               +:+ PurePath.to_str dest)] in
     ensure_symlink_to env path dest w =
     match Fs.symlink (cwd env) f1 dest path with
     | inr f2 =>
         (inr true,
          mkWorld f2 (ticks w) (events w ++ said ++ [SysSymlink dest path]))
     | inl e => (inl (OSError e), mkWorld f1 (ticks w) (events w ++ said))
     end).
Proof.
  intros Hl. split.
  - intros Heq. rewrite (ensure_on_link _ _ _ _ Hl).
    rewrite bool_decide_eq_true_2 by exact Heq. reflexivity.
  - intros Hne. exact (ensure_on_wrong_link_run _ _ _ _ Hl Hne).
Qed.

End EnsureSymlink.

(** * [latest_day_dir] *)

Lemma lex_ltb_irrefl a : DateTime.lex_ltb a a = false.
Proof.
  induction a as [|x a IH]; simpl; [reflexivity|].
  rewrite Nat.ltb_irrefl, Nat.eqb_refl, IH. reflexivity.
Qed.

Lemma lex_ltb_trans a : forall b c,
  DateTime.lex_ltb a b = true -> DateTime.lex_ltb b c = true ->
  DateTime.lex_ltb a c = true.
Proof.
  induction a as [|x a IH]; intros [|y b] [|z c]; simpl; try discriminate.
  intros H1 H2.
  apply orb_true_iff in H1 as [H1|H1]; apply orb_true_iff in H2 as [H2|H2];
    apply orb_true_iff.
  - left. apply Nat.ltb_lt in H1, H2. apply Nat.ltb_lt. lia.
  - apply andb_true_iff in H2 as [H2 _]. apply Nat.eqb_eq in H2. subst.
    left. exact H1.
  - apply andb_true_iff in H1 as [H1 _]. apply Nat.eqb_eq in H1. subst.
    left. exact H2.
  - apply andb_true_iff in H1 as [H1 H1'], H2 as [H2 H2'].
    apply Nat.eqb_eq in H1, H2. subst. right.
    rewrite Nat.eqb_refl. simpl. eauto.
Qed.

Lemma ltb_irrefl d : DateTime.ltb d d = false.
Proof. apply lex_ltb_irrefl. Qed.

Lemma ltb_trans a b c :
  DateTime.ltb a b = true -> DateTime.ltb b c = true -> DateTime.ltb a c = true.
Proof. apply lex_ltb_trans. Qed.

Lemma name_child path n : PurePath.name (path // mkPath false [n]) = n.
Proof. unfold PurePath.name, PurePath.join. simpl. apply last_last. Qed.

Lemma latest_step_inv path seen acc n :
  latest_of path seen acc ->
  latest_of path (seen ++ [n]) (latest_step acc (path // mkPath false [n])).
Proof.
  unfold latest_step. rewrite name_child.
  intros [[-> Hnone]|(m & Hm & Hp & Hd & Hs & Hmax)].
  - destruct (DateTime.strptime n DATE_FMT) as [d|] eqn:En.
    + simpl. destruct (DateTime.ltb sentinel d) eqn:Es.
      * right. exists n. simpl. repeat split; auto.
        { apply elem_of_app. right. apply list_elem_of_singleton. reflexivity. }
        intros n' d' Hin Hn'. apply elem_of_app in Hin as [Hin|Hin].
        { destruct (DateTime.ltb d d') eqn:E; [|reflexivity].
          rewrite <- (Hnone _ _ Hin Hn'). symmetry.
          eapply ltb_trans; eassumption. }
        { apply list_elem_of_singleton in Hin. subst n'.
          rewrite En in Hn'. injection Hn' as <-. apply ltb_irrefl. }
      * left. split; [reflexivity|]. intros n' d' Hin Hn'.
        apply elem_of_app in Hin as [Hin|Hin]; [eauto|].
        apply list_elem_of_singleton in Hin. subst n'.
        rewrite En in Hn'. injection Hn' as <-. exact Es.
    + left. split; [reflexivity|]. intros n' d' Hin Hn'.
      apply elem_of_app in Hin as [Hin|Hin]; [eauto|].
      apply list_elem_of_singleton in Hin. subst n'. congruence.
  - destruct (DateTime.strptime n DATE_FMT) as [d|] eqn:En.
    + destruct (DateTime.ltb acc.1 d) eqn:Es.
      * right. exists n. simpl. repeat split; auto.
        { apply elem_of_app. right. apply list_elem_of_singleton. reflexivity. }
        { eapply ltb_trans; eassumption. }
        intros n' d' Hin Hn'. apply elem_of_app in Hin as [Hin|Hin].
        { destruct (DateTime.ltb d d') eqn:E; [|reflexivity].
          rewrite <- (Hmax _ _ Hin Hn'). symmetry.
          eapply ltb_trans; eassumption. }
        { apply list_elem_of_singleton in Hin. subst n'.
          rewrite En in Hn'. injection Hn' as <-. apply ltb_irrefl. }
      * right. exists m. repeat split; auto.
        { apply elem_of_app. left. exact Hm. }
        intros n' d' Hin Hn'. apply elem_of_app in Hin as [Hin|Hin]; [eauto|].
        apply list_elem_of_singleton in Hin. subst n'.
        rewrite En in Hn'. injection Hn' as <-. exact Es.
    + right. exists m. repeat split; auto.
      { apply elem_of_app. left. exact Hm. }
      intros n' d' Hin Hn'. apply elem_of_app in Hin as [Hin|Hin]; [eauto|].
      apply list_elem_of_singleton in Hin. subst n'. congruence.
Qed.

Lemma latest_fold_inv path names : forall seen acc,
  latest_of path seen acc ->
  latest_of path (seen ++ names)
    (fold_left latest_step (map (fun n => path // mkPath false [n]) names) acc).
Proof.
  induction names as [|n names IH]; intros seen acc H; simpl.
  - rewrite app_nil_r. exact H.
  - replace (seen ++ n :: names) with ((seen ++ [n]) ++ names)
      by (rewrite <- app_assoc; reflexivity).
    apply IH. apply latest_step_inv. exact H.
Qed.

Section LatestDayDir.

Variable env : Env.

Lemma latest_day_dir_run path w :
  latest_day_dir env path w =
  match Fs.listdir (cwd env) (fs w) path with
  | inr names =>
      let r := fold_left latest_step
                 (map (fun n => path // mkPath false [n]) names)
                 (sentinel, path) in
      (inr (if bool_decide (r.1 = sentinel) then None else Some r.2), w)
  | inl e => (inl (OSError e), w)
  end.
Proof.
  unfold latest_day_dir. rewrite bind_unfold. unfold iterdir.
  destruct (Fs.listdir _ _ _); reflexivity.
Qed.

(** C4, as amended.  [latest_day_dir] reads the names of the immediate
    children of the root and nothing else, and leaves the world as it
    is.  A name that [strptime] refuses ([notes.txt], [2024-13-40]) is
    passed over without an exception.  The result is the child with the
    latest date among those later than the sentinel, 1900-01-01; it is
    [None] exactly when no child has a date later than the sentinel. *)
Theorem latest_day_dir_latest_after_sentinel path w :
  (latest_day_dir env path w).2 = w /\
  DateTime.strptime "notes.txt" DATE_FMT = None /\
  DateTime.strptime "2024-13-40" DATE_FMT = None /\
  match Fs.listdir (cwd env) (fs w) path with
  | inl e => (latest_day_dir env path w).1 = inl (OSError e)
  | inr names =>
      match (latest_day_dir env path w).1 with
      | inr None =>
          forall n d, n ∈ names ->
            DateTime.strptime n DATE_FMT = Some d ->
            DateTime.ltb sentinel d = false
      | inr (Some p) =>
          exists n d,
            n ∈ names /\ p = path // mkPath false [n] /\
            DateTime.strptime n DATE_FMT = Some d /\
            DateTime.ltb sentinel d = true /\
            forall n' d', n' ∈ names ->
              DateTime.strptime n' DATE_FMT = Some d' ->
              DateTime.ltb d d' = false
      | inl _ => False
      end
  end.
Proof.
  rewrite latest_day_dir_run.
  split; [destruct (Fs.listdir _ _ _); reflexivity|].
  split; [vm_compute; reflexivity|]. split; [vm_compute; reflexivity|].
  destruct (Fs.listdir _ _ _) as [e|names]; [reflexivity|]. cbv zeta.
  assert (H0 : latest_of path [] (sentinel, path)).
  { left. split; [reflexivity|]. intros n d Hin. inversion Hin. }
  pose proof (latest_fold_inv path names [] _ H0) as H. simpl in H.
  destruct H as [[E Hnone]|(n & Hn & Hp & Hd & Hs & Hmax)].
  - rewrite E. simpl. exact Hnone.
  - simpl. destruct (bool_decide _) eqn:Eb.
    + apply bool_decide_eq_true in Eb. rewrite Eb, ltb_irrefl in Hs. discriminate.
    + exists n. eexists. repeat split; eauto.
Qed.

End LatestDayDir.

(** * [git_commit] *)

Section GitCommit.

Variable env : Env.

Lemma is_dir_exists f p : is_dir_in env f p = true -> exists_in env f p = true.
Proof.
  unfold is_dir_in, exists_in. destruct (Fs.stat _ _ _); [discriminate|reflexivity].
Qed.

Lemma subprocess_run_eq argv dir w :
  is_dir_in env (fs w) dir = true ->
  argv <> ["git"; "init"] ->
  subprocess_run env argv dir w =
  match git env w dir argv with
  | Some out => (inr out, log (Run argv dir) w)
  | None => (inl (CalledProcessError argv), log (Run argv dir) w)
  end.
Proof.
  unfold is_dir_in, Fs.stat, Fs.inode_at, subprocess_run. intros Hd Hne.
  destruct (Fs.locate _ _ _ _) as [e|l]; [discriminate|].
  destruct (Fs.get (fs w) l) as [[]|]; try discriminate.
  unfold git_effect. rewrite bool_decide_eq_false_2 by exact Hne.
  destruct (git env w dir argv); reflexivity.
Qed.

Lemma git_commit_run repo w out :
  is_dir_in env (fs w) repo = true ->
  git env w repo STATUS = Some out ->
  git_commit env repo w =
  if existsb (fun e => bool_decide (PurePath.name e.2 <> PREV_LINK))
       (parse_status repo out)
  then commit_changes env repo (log (Run STATUS repo) w)
  else (inr tt,
        log (Printed (PurePath.to_str repo +:+ " has no local changes"))
          (log (Run STATUS repo) w)).
Proof.
  intros Hd Hs. unfold git_commit. mstep. rewrite (is_dir_exists _ _ Hd).
  rewrite bind_unfold. unfold git_changes. rewrite bind_unfold.
  rewrite subprocess_run_eq by (assumption || discriminate).
  rewrite Hs. simpl.
  destruct (existsb _ _); reflexivity.
Qed.

Lemma commit_changes_run repo w :
  is_dir_in env (fs w) repo = true ->
  let date := DateTime.strftime DATE_FMT (clock env (ticks w)) in
  let add := ["git"; "add"; "."] in
  let commit := ["git"; "commit"; "-m"; date; "-m";
                 "Temporary / scratch work until " +:+ date] in
  let w1 :=
    mkWorld (fs w) (S (ticks w))
      (events w ++ [Printed (PurePath.to_str repo
                           +:+ " has local changes, comitting")]) in
  commit_changes env repo w =
  match git env w1 repo add with
  | None => (inl (CalledProcessError add), log (Run add repo) w1)
  | Some _ =>
      match git env (log (Run add repo) w1) repo commit with
      | None =>
          (inl (CalledProcessError commit),
           log (Run commit repo) (log (Run add repo) w1))
      | Some _ => (inr tt, log (Run commit repo) (log (Run add repo) w1))
      end
  end.
Proof.
  intros Hd. cbv zeta. unfold commit_changes. mstep. mstep. mstep.
  rewrite subprocess_run_eq by (assumption || discriminate).
  destruct (git env _ repo ["git"; "add"; "."]); [|reflexivity].
  mstep. rewrite subprocess_run_eq by (assumption || discriminate).
  destruct (git env _ repo _); reflexivity.
Qed.

Lemma no_changes_iff (entries : list (string * Path)) :
  existsb (fun e => bool_decide (PurePath.name e.2 <> PREV_LINK)) entries = false
  <-> Forall (fun e => PurePath.name e.2 = PREV_LINK) entries.
Proof.
  induction entries as [|e entries IH]; simpl.
  - split; [constructor|reflexivity].
  - rewrite orb_false_iff, IH, Forall_cons. 
    assert (bool_decide (PurePath.name e.2 <> PREV_LINK) = false
            <-> PurePath.name e.2 = PREV_LINK).
    { destruct (decide (PurePath.name e.2 = PREV_LINK)) as [E|E].
      - rewrite bool_decide_eq_false_2 by (intros H; apply H; exact E). tauto.
      - rewrite bool_decide_eq_true_2 by exact E. split; [discriminate|tauto]. }
    tauto.
Qed.

Lemma commit_changes_effect repo w :
  is_dir_in env (fs w) repo = true ->
  ticks (commit_changes env repo w).2 = S (ticks w) /\
  exists tl,
    events (commit_changes env repo w).2 =
      events w ++
        [Printed (PurePath.to_str repo +:+ " has local changes, comitting");
         Run ["git"; "add"; "."] repo] ++ tl.
Proof.
  intros Hd. rewrite commit_changes_run by exact Hd. cbv zeta.
  repeat match goal with
         | |- context [match git ?e ?v ?r ?a with _ => _ end] =>
             destruct (git e v r a)
         end;
    (split; [reflexivity|]); unfold log; simpl; rewrite <- !app_assoc;
    simpl; eexists; reflexivity.
Qed.


(** On the entries that [git_changes] returns, whether [git_commit]
    sees changes is decided by the last component of each path alone:
    it reports no local changes (and runs nothing after [git status])
    exactly when the last component of every entry is [prev]; otherwise
    it goes on to [git add]. *)
Lemma git_commit_decides_on_parsed_names repo w out :
  is_dir_in env (fs w) repo = true ->
  git env w repo STATUS = Some out ->
  let last_is_prev line :=
    List.last (parts (PurePath.join_str repo (Str.drop 3 line))) "" = "prev" in
  let lines := Str.splitlines (Str.strip out) in
  (git_commit env repo w =
     (inr tt,
      mkWorld (fs w) (ticks w)
        (events w ++
           [Run STATUS repo;
            Printed (PurePath.to_str repo +:+ " has no local changes")]))
   <-> forall line, line ∈ lines -> last_is_prev line) /\
  ((exists line, line ∈ lines /\ ~ last_is_prev line) ->
   exists tl,
     events (git_commit env repo w).2 =
       events w ++
         [Run STATUS repo;
          Printed (PurePath.to_str repo +:+ " has local changes, comitting");
          Run ["git"; "add"; "."] repo] ++ tl).
Proof.
  intros Hd Hs last_is_prev lines.
  assert (Hall : Forall (fun e => PurePath.name e.2 = PREV_LINK)
                   (parse_status repo out)
                 <-> forall line, line ∈ lines -> last_is_prev line).
  { unfold parse_status. rewrite Forall_map, Forall_forall. reflexivity. }
  rewrite (git_commit_run _ _ _ Hd Hs).
  destruct (existsb _ _) eqn:Ex.
  - assert (Hnot : ~ Forall (fun e => PurePath.name e.2 = PREV_LINK)
                     (parse_status repo out)).
    { intros Hf. apply no_changes_iff in Hf. congruence. }
    destruct (commit_changes_effect repo (log (Run STATUS repo) w) Hd)
      as (Ht & tl & He).
    split.
    + split.
      * intros Heq. exfalso. rewrite Heq in Ht. simpl in Ht.
        exact (n_Sn _ Ht).
      * intros Hf. exfalso. apply Hnot, Hall, Hf.
    + intros _. exists tl. rewrite He. unfold log. simpl.
      rewrite <- !app_assoc. reflexivity.
  - apply no_changes_iff in Ex. split.
    + split; [intros _; apply Hall, Ex|].
      intros _. unfold log. simpl. rewrite <- app_assoc. reflexivity.
    + intros (line & Hin & Hne). exfalso. apply Hne.
      apply Hall; assumption.
Qed.

End GitCommit.

(** * The runs of [main] *)

(** C1 (the code fails it).  From a home directory with nothing in it,
    the first run sets everything up.  The second run, with the same
    arguments and nothing changed in between, is not a no-op: whether or
    not [--full] is given it goes through [git status] again, finds
    today's directory as the latest day, and [ensure_symlink_to] makes the
    link [prev] in today's directory, to that directory. *)
Theorem main_second_run_is_not_a_noop :
  forall full : bool,
    let first := main (env_on june15 "") (args_u full) fresh in
    let second := main (env_on june15 "") (args_u full) first.2 in
    first.1 = inr tt /\ second.1 = inr tt /\
    Fs.lstat [] (fs first.2) (prev_of "2024-06-15") = inl ENOENT /\
    Fs.lstat [] (fs second.2) (prev_of "2024-06-15")
      = inr (Link (day_u "2024-06-15")) /\
    drop (List.length (events first.2)) (events second.2) =
      [Printed "/home/u/scratch is already a link to /home/u/repo/2024-06-15";
       Run STATUS repo_u;
       Printed "/home/u/repo has no local changes";
       Printed "Previous working path was /home/u/repo/2024-06-15";
       Printed "Linking /home/u/scratch/prev to /home/u/repo/2024-06-15";
       SysSymlink (day_u "2024-06-15")
         (mkPath true ["home"; "u"; "scratch"; "prev"])].
Proof. intros []; vm_compute; repeat split; reflexivity. Qed.

(** C3 (the code fails it).  With two days of content and today being
    2024-01-03, the run that creates today's directory links
    [2024-01-03/prev] to [2024-01-02].  A full run that finds today's
    directory already there takes it for the latest day and links
    [2024-01-03/prev] to [2024-01-03] itself. *)
Theorem main_prev_points_at_today :
  let first :=
    main (env_on jan3 "?? 2024-01-02/b.txt") (args_u false) two_days in
  let second :=
    main (env_on jan3 "?? 2024-01-03/prev") (args_u true) first.2 in
  first.1 = inr tt /\
  Fs.lstat [] (fs first.2) (prev_of "2024-01-03")
    = inr (Link (day_u "2024-01-02")) /\
  second.1 = inr tt /\
  Fs.lstat [] (fs second.2) (prev_of "2024-01-03")
    = inr (Link (day_u "2024-01-03")) /\
  (latest_day_dir (env_on jan3 "") repo_u first.2).1
    = inr (Some (day_u "2024-01-03")).
Proof. vm_compute. repeat split; reflexivity. Qed.

(** C5 (the code fails it).  [--full] unset, today's directory there,
    and the working path already right ([ensure_symlink_to] reports no
    work): the run goes on to [git status] and makes a [prev] link.
    Where the link was wrong instead ([ensure_symlink_to] reports work),
    the run prints that there is nothing to do and stops there: the test
    reads the result of [ensure_symlink_to] upside down. *)
Theorem main_fast_path_is_inverted :
  (ensure_symlink_to (env_on june15 "") scratch_u (day_u "2024-06-15") settled).1
    = inr false /\
  (main (env_on june15 "") (args_u false) settled).1 = inr tt /\
  events (main (env_on june15 "") (args_u false) settled).2 =
    [Printed "/home/u/scratch is already a link to /home/u/repo/2024-06-15";
     Run STATUS repo_u;
     Printed "/home/u/repo has no local changes";
     Printed "Previous working path was /home/u/repo/2024-06-15";
     Printed "Linking /home/u/scratch/prev to /home/u/repo/2024-06-15";
     SysSymlink (day_u "2024-06-15")
       (mkPath true ["home"; "u"; "scratch"; "prev"])] /\
  (ensure_symlink_to (env_on june15 "") scratch_u (day_u "2024-06-15") stale).1
    = inr true /\
  events (main (env_on june15 "?? 2024-06-14/work.txt") (args_u false) stale).2 =
    [Printed "/home/u/scratch is a link to /home/u/repo/2024-06-14 instead of /home/u/repo/2024-06-15";
     SysUnlink scratch_u;
     Printed "Linking /home/u/scratch to /home/u/repo/2024-06-15";
     SysSymlink (day_u "2024-06-15") scratch_u;
     Printed "/home/u/repo/2024-06-15 already exists, nothing to do."].
Proof. vm_compute. repeat split; reflexivity. Qed.

(** * [remove_empty_dirs] *)

(** C7 (the code fails it).  A day directory that holds only a [prev]
    link passes the emptiness test, and [rmdir] then refuses it: the call
    raises [OSError] (directory not empty) and the directory stays.  The
    same directory without the link is removed. *)
Theorem remove_empty_dirs_prev_only_raises :
  (remove_empty_dirs (env_on jan3 "") repo_u [day_u "2024-01-03"] prev_only).1
    = inl (OSError ENOTEMPTY) /\
  events (remove_empty_dirs (env_on jan3 "") repo_u [day_u "2024-01-03"] prev_only).2
    = [Printed "/home/u/repo/2024-01-02 is empty, removing"] /\
  Fs.lstat []
    (fs (remove_empty_dirs (env_on jan3 "") repo_u [day_u "2024-01-03"] prev_only).2)
    (day_u "2024-01-02") = inr Dir /\
  (remove_empty_dirs (env_on jan3 "") repo_u [day_u "2024-01-03"] empty_day).1
    = inr tt /\
  Fs.lstat []
    (fs (remove_empty_dirs (env_on jan3 "") repo_u [day_u "2024-01-03"] empty_day).2)
    (day_u "2024-01-02") = inl ENOENT.
Proof. vm_compute. repeat split; reflexivity. Qed.

(** * The status lines of [git], as [git_changes] reads them *)

(** C10 (the code fails it).  [git_changes] strips the whole output of
    [git status] before it cuts the lines, and so loses the blank that
    begins the first line when its first status letter is a blank (a
    change that is not staged): that line is read one column off.  A
    modified file [xprev] at the top of the repository, the only change,
    is taken for [prev], and nothing is committed; a modified [prev] at
    the top is taken for [rev], and committed.  The same [xprev] is read
    right when the change is staged ([M] before the blank), and when its
    line is not the first; a [prev] in a day directory is left out as it
    should.  A path that [git] prints in double quotes keeps them: the
    file [prev] of the directory [my notes] is not taken for a [prev]
    either. *)
Theorem git_commit_misreads_status_line :
  let said out := events (git_commit (env_on june15 out) repo_u odd_names).2 in
  let quiet :=
    [Run STATUS repo_u; Printed "/home/u/repo has no local changes"] in
  let committed :=
    [Run STATUS repo_u;
     Printed "/home/u/repo has local changes, comitting";
     Run ["git"; "add"; "."] repo_u;
     Run ["git"; "commit"; "-m"; "2024-06-15"; "-m";
          "Temporary / scratch work until 2024-06-15"] repo_u] in
  (parse_status repo_u (" M xprev" +:+ nl)
     = [("M ", mkPath true ["home"; "u"; "repo"; "prev"])] /\
   said (" M xprev" +:+ nl) = quiet) /\
  (parse_status repo_u (" M prev" +:+ nl)
     = [("M ", mkPath true ["home"; "u"; "repo"; "rev"])] /\
   said (" M prev" +:+ nl) = committed) /\
  (parse_status repo_u ("M  xprev" +:+ nl)
     = [("M ", mkPath true ["home"; "u"; "repo"; "xprev"])] /\
   said ("M  xprev" +:+ nl) = committed) /\
  (parse_status repo_u
     (" M 2024-06-15/notes.txt" +:+ nl +:+ " M xprev" +:+ nl)
     = [("M ", mkPath true ["home"; "u"; "repo"; "024-06-15"; "notes.txt"]);
        (" M", mkPath true ["home"; "u"; "repo"; "xprev"])] /\
   said (" M 2024-06-15/notes.txt" +:+ nl +:+ " M xprev" +:+ nl)
     = committed) /\
  (parse_status repo_u ("?? 2024-06-15/prev" +:+ nl)
     = [("??", prev_of "2024-06-15")] /\
   said ("?? 2024-06-15/prev" +:+ nl) = quiet) /\
  (parse_status repo_u
     ("?? " +:+ dq +:+ "2024-06-15/my notes/prev" +:+ dq +:+ nl)
     = [("??",
         mkPath true
           ["home"; "u"; "repo"; dq +:+ "2024-06-15"; "my notes";
            "prev" +:+ dq])] /\
   said ("?? " +:+ dq +:+ "2024-06-15/my notes/prev" +:+ dq +:+ nl)
     = committed).
Proof. vm_compute. repeat split; reflexivity. Qed.

(** * The theorems at work on the example worlds *)

(** C4 as the specification words it does not hold.  The only child of
    the repository is named [1850-01-01], which parses as a date, and
    [latest_day_dir] returns nothing: the date is not later than the
    sentinel. *)
Lemma latest_day_dir_ignores_1850 :
  Fs.listdir [] (fs old_day) repo_u = inr ["1850-01-01"] /\
  DateTime.strptime "1850-01-01" DATE_FMT = Some (mkDT 1850 1 1 0 0 0) /\
  (latest_day_dir (env_on june15 "") repo_u old_day).1 = inr None.
Proof. vm_compute. repeat split; reflexivity. Qed.


(** The directory that was at the working path is found, with its file,
    under the backup name. *)
Example takeover_keeps_content :
  let after :=
    (ensure_symlink_to (env_on june15 "") scratch_u
       (day_u "2024-06-15") occupied).2 in
  Fs.lstat [] (fs occupied) (mkPath true ["home"; "u"; "scratch"; "keep.txt"])
    = inr (File "k") /\
  Fs.lstat [] (fs after)
    (mkPath true ["home"; "u"; "scratch-2024-06-15T12_00_00"; "keep.txt"])
    = inr (File "k") /\
  Fs.lstat [] (fs after) scratch_u = inr (Link (day_u "2024-06-15")) /\
  events after =
    [Printed "Renaming /home/u/scratch to /home/u/scratch-2024-06-15T12_00_00";
     SysRename scratch_u (mkPath true ["home"; "u"; "scratch-2024-06-15T12_00_00"]);
     Printed "Linking /home/u/scratch to /home/u/repo/2024-06-15";
     SysSymlink (day_u "2024-06-15") scratch_u].
Proof. vm_compute. repeat split; reflexivity. Qed.

(** A wrong link is removed and nothing else: the directory it led to
    and the file in it are where they were, and there is no backup. *)
Example takeover_unlinks_only_the_link :
  let after :=
    (ensure_symlink_to (env_on june15 "") scratch_u
       (day_u "2024-06-15") stale).2 in
  Fs.lstat [] (fs after)
    (mkPath true ["home"; "u"; "repo"; "2024-06-14"; "work.txt"])
    = inr (File "w") /\
  Fs.listdir [] (fs stale) (mkPath true ["home"; "u"]) = inr ["repo"; "scratch"] /\
  Fs.listdir [] (fs after) (mkPath true ["home"; "u"]) = inr ["repo"; "scratch"] /\
  Fs.lstat [] (fs after) scratch_u = inr (Link (day_u "2024-06-15")) /\
  events after =
    [Printed "/home/u/scratch is a link to /home/u/repo/2024-06-14 instead of /home/u/repo/2024-06-15";
     SysUnlink scratch_u;
     Printed "Linking /home/u/scratch to /home/u/repo/2024-06-15";
     SysSymlink (day_u "2024-06-15") scratch_u].
Proof. vm_compute. repeat split; reflexivity. Qed.

(** The file that was at the working path is found under the backup
    name. *)
Example takeover_keeps_file :
  let after :=
    (ensure_symlink_to (env_on june15 "") scratch_u
       (day_u "2024-06-15") occupied_by_file).2 in
  Fs.lstat [] (fs after)
    (mkPath true ["home"; "u"; "scratch-2024-06-15T12_00_00"])
    = inr (File "jottings") /\
  Fs.lstat [] (fs after) scratch_u = inr (Link (day_u "2024-06-15")) /\
  events after =
    [Printed "Renaming /home/u/scratch to /home/u/scratch-2024-06-15T12_00_00";
     SysRename scratch_u (mkPath true ["home"; "u"; "scratch-2024-06-15T12_00_00"]);
     Printed "Linking /home/u/scratch to /home/u/repo/2024-06-15";
     SysSymlink (day_u "2024-06-15") scratch_u].
Proof. vm_compute. repeat split; reflexivity. Qed.

(** Where nothing was, the link is made and nothing else is done. *)
Example takeover_of_nothing :
  let after :=
    (ensure_symlink_to (env_on june15 "") scratch_u
       (day_u "2024-06-15") fresh).2 in
  Fs.lstat [] (fs after) scratch_u = inr (Link (day_u "2024-06-15")) /\
  events after =
    [Printed "Linking /home/u/scratch to /home/u/repo/2024-06-15";
     SysSymlink (day_u "2024-06-15") scratch_u].
Proof. vm_compute. repeat split; reflexivity. Qed.

Lemma ensure_symlink_to_backup_collision_witness :
  Fs.lstat [] (fs collision) scratch_u = inr Dir /\
  exists_in (env_on june15 "") (fs collision)
    (mkPath true ["home"; "u"; "scratch-2024-06-15T12_00_00"]) = true /\
  ensure_symlink_to (env_on june15 "") scratch_u (day_u "2024-06-15") collision =
    (inl (ValueError
            ("Backup path "
             +:+ PurePath.to_str (mkPath true ["home"; "u"; "scratch-2024-06-15T12_00_00"])
             +:+ " already exists")),
     mkWorld (fs collision) 1 []).
Proof.
  split; [vm_compute; reflexivity|]. split; [vm_compute; reflexivity|].
  refine (ensure_symlink_to_backup_collision (env_on june15 "") scratch_u
            (day_u "2024-06-15") collision Dir
            (mkPath true ["home"; "u"; "scratch-2024-06-15T12_00_00"])
            _ _ _ _).
  - vm_compute; reflexivity.
  - intros t; discriminate.
  - vm_compute; reflexivity.
  - vm_compute; reflexivity.
Defined.

Lemma ensure_symlink_to_compares_unresolved_witness :
  let stored := mkPath true ["home"; "u"; "r"; "2024-06-15"] in
  let dest := day_u "2024-06-15" in
  Fs.lstat [] (fs aliased) scratch_u = inr (Link stored) /\
  Fs.locate [] (fs aliased) true stored = Fs.locate [] (fs aliased) true dest /\
  PurePath.parent scratch_u // stored <> dest /\
  (ensure_symlink_to (env_on june15 "") scratch_u dest aliased).1 <> inr false /\
  (ensure_symlink_to (env_on june15 "") scratch_u dest aliased).1 = inr true /\
  events (ensure_symlink_to (env_on june15 "") scratch_u dest aliased).2 =
    [Printed "/home/u/scratch is a link to /home/u/r/2024-06-15 instead of /home/u/repo/2024-06-15";
     SysUnlink scratch_u;
     Printed "Linking /home/u/scratch to /home/u/repo/2024-06-15";
     SysSymlink dest scratch_u].
Proof.
  intros stored dest.
  assert (Hl : Fs.lstat [] (fs aliased) scratch_u = inr (Link stored))
    by (vm_compute; reflexivity).
  assert (Hne : PurePath.parent scratch_u // stored <> dest)
    by (intros H; vm_compute in H; discriminate H).
  split; [exact Hl|]. split; [vm_compute; reflexivity|]. split; [exact Hne|].
  split.
  - destruct (proj2 (ensure_symlink_to_compares_unresolved
                       (env_on june15 "") scratch_u dest aliased stored Hl) Hne)
      as (f1 & _ & Heq).
    rewrite Heq. destruct (Fs.symlink _ _ _ _); discriminate.
  - split; vm_compute; reflexivity.
Defined.


(** * Further properties *)

(** ** [remove_empty_dirs] keeps everything that is not a directory *)

Lemma for_each_preserves {A} (R : World -> World -> Prop) (P : A -> Prop)
    (body : A -> M unit) :
  (forall w, R w w) ->
  (forall w1 w2 w3, R w1 w2 -> R w2 w3 -> R w1 w3) ->
  (forall x w, P x -> R w (body x w).2) ->
  forall l w, Forall P l -> R w (for_each l body w).2.
Proof.
  intros Hrefl Htrans Hbody. induction l as [|x l IH]; intros w Hl.
  - apply Hrefl.
  - apply Forall_cons in Hl as [Hx Hl]. simpl. rewrite bind_unfold.
    specialize (Hbody x w Hx).
    destruct (body x w) as [[e|[]] w1]; simpl in *; [exact Hbody|].
    eapply Htrans; [exact Hbody|]. apply IH, Hl.
Qed.

Lemma rmdir_inv cwd0 f p f' :
  Fs.rmdir cwd0 f p = inr f' ->
  exists l, f !! l = Some Dir /\ f' = delete l f.
Proof.
  unfold Fs.rmdir. destruct (Fs.locate _ _ _ _) as [e|l]; [discriminate|].
  destruct (Fs.get f l) as [[]|] eqn:G; try discriminate.
  destruct l as [|x l]; [discriminate|].
  destruct (Fs.children f (x :: l)); [|discriminate].
  intros [= <-]. exists (x :: l). split; [exact G|reflexivity].
Qed.

Lemma pruned_refl root other_than w : pruned root other_than w w.
Proof.
  repeat split; auto. exists []. rewrite app_nil_r. split; [reflexivity|constructor].
Qed.

Lemma pruned_trans root other_than w1 w2 w3 :
  pruned root other_than w1 w2 -> pruned root other_than w2 w3 ->
  pruned root other_than w1 w3.
Proof.
  intros (Ht1 & Hs1 & Hk1 & n1 & He1 & Hn1) (Ht2 & Hs2 & Hk2 & n2 & He2 & Hn2).
  split; [congruence|]. split; [etrans; eassumption|]. split.
  - intros l i Hl Hi. apply Hk2; [|exact Hi]. apply Hk1; assumption.
  - exists (n1 ++ n2). split.
    + rewrite He2, He1, app_assoc. reflexivity.
    + apply Forall_app. split; assumption.
Qed.

Section Prune.

Variable env : Env.

(** X1.  [remove_empty_dirs] never removes a file or a symbolic link and
    never creates anything, whether it returns or raises: what it leaves
    is the filesystem it found less some directories, every [rmdir] it
    has done is of a child of the root that is not protected, and it
    reads no clock and runs no subprocess. *)
Theorem remove_empty_dirs_keeps_content path other_than w :
  let w' := (remove_empty_dirs env path other_than w).2 in
  ticks w' = ticks w /\
  fs w' ⊆ fs w /\
  (forall l i, fs w !! l = Some i -> i <> Dir -> fs w' !! l = Some i) /\
  exists new,
    events w' = events w ++ new /\
    Forall (fun e =>
              match e with
              | Printed _ => True
              | SysRmdir p =>
                  (p ∉ other_than) /\ exists n, p = path // mkPath false [n]
              | _ => False
              end) new.
Proof.
  cbv zeta. change (pruned path other_than w
                      (remove_empty_dirs env path other_than w).2).
  unfold remove_empty_dirs. rewrite bind_unfold. unfold iterdir at 1.
  destruct (Fs.listdir _ _ _) as [e|names]; [apply pruned_refl|].
  apply (for_each_preserves (pruned path other_than)
           (fun child => exists n, child = path // mkPath false [n])).
  - apply pruned_refl.
  - apply pruned_trans.
  - intros child v Hchild.
    destruct (bool_decide (child ∈ other_than)) eqn:Ein; [apply pruned_refl|].
    apply bool_decide_eq_false in Ein.
    rewrite bind_unfold. simpl.
    destruct (is_dir_in env (fs v) child); simpl; [|apply pruned_refl].
    rewrite bind_unfold. unfold iterdir.
    destruct (Fs.listdir _ _ _) as [e|entries]; [apply pruned_refl|].
    destruct (filter _ _); [|apply pruned_refl].
    rewrite bind_unfold. simpl. unfold path_rmdir, syscall. simpl.
    destruct (Fs.rmdir _ _ _) as [e|f'] eqn:Er; simpl.
    + repeat split; auto. eexists. split; [reflexivity|].
      repeat constructor.
    + apply rmdir_inv in Er as (l & Hl & ->).
      split; [reflexivity|]. split; [apply delete_subseteq|]. split.
      * intros k i Hk Hi. simpl. rewrite lookup_delete_ne; [exact Hk|].
        intros <-. rewrite Hl in Hk. injection Hk as <-. apply Hi. reflexivity.
      * simpl.
        exists [Printed (PurePath.to_str child +:+ " is empty, removing");
                SysRmdir child].
        split; [rewrite <- app_assoc; reflexivity|].
        repeat constructor; assumption.
  - apply Forall_forall. intros child Hin.
    apply list_elem_of_fmap in Hin as (n & -> & _). eauto.
Qed.

End Prune.

(** ** Dates and their names *)

Lemma digit_val_digit n : Str.digit_val (Str.digit n) = Some (n mod 10).
Proof.
  unfold Str.digit_val, Str.digit.
  pose proof (Nat.mod_upper_bound n 10 ltac:(lia)) as Hlt.
  rewrite nat_ascii_embedding by lia.
  replace (Nat.leb 48 (48 + n mod 10)) with true
    by (symmetry; apply Nat.leb_le; lia).
  replace (Nat.leb (48 + n mod 10) 57) with true
    by (symmetry; apply Nat.leb_le; lia).
  simpl. f_equal. lia.
Qed.

Lemma digit_inj a b : Str.digit a = Str.digit b -> a mod 10 = b mod 10.
Proof.
  intros H. pose proof (digit_val_digit a) as Ha.
  rewrite H, digit_val_digit in Ha. congruence.
Qed.

Lemma decimal2 n : (n < 100)%nat -> 10 * ((n / 10) mod 10) + n mod 10 = n.
Proof.
  intros Hn. pose proof (Nat.div_mod_eq n 10).
  assert (n / 10 < 10)%nat by (apply Nat.Div0.div_lt_upper_bound; lia).
  rewrite (Nat.mod_small (n / 10)) by assumption. lia.
Qed.

Lemma decimal4 n :
  (n < 10 * 1000)%nat ->
  1000 * ((n / 1000) mod 10) + 100 * ((n / 100) mod 10)
  + 10 * ((n / 10) mod 10) + n mod 10 = n.
Proof.
  intros Hn.
  pose proof (Nat.div_mod_eq n 10).
  pose proof (Nat.div_mod_eq (n / 10) 10) as H10.
  pose proof (Nat.div_mod_eq (n / 100) 10) as H100.
  rewrite (Nat.Div0.div_div n 10 10) in H10.
  rewrite (Nat.Div0.div_div n 100 10) in H100.
  change (10 * 10) with 100 in H10. change (100 * 10) with 1000 in H100.
  assert (n / 1000 < 10)%nat by (apply Nat.Div0.div_lt_upper_bound; lia).
  rewrite (Nat.mod_small (n / 1000)) by assumption. lia.
Qed.

Lemma string_cons_inj a b s t : String a s = String b t -> a = b /\ s = t.
Proof. intros [= -> ->]. split; reflexivity. Qed.

Lemma append_inj_l s : forall a b, s +:+ a = s +:+ b -> a = b.
Proof.
  induction s as [|c s IH]; intros a b H; [exact H|].
  apply string_cons_inj in H as [_ H]. auto.
Qed.

Lemma length_append s : forall t,
  String.length (s +:+ t) = String.length s + String.length t.
Proof. induction s as [|c s IH]; intros t; simpl; [reflexivity|]. rewrite IH. reflexivity. Qed.

Lemma pad2_inj a b : (a < 100)%nat -> (b < 100)%nat -> Str.pad2 a = Str.pad2 b -> a = b.
Proof.
  intros Ha Hb H. unfold Str.pad2 in H.
  apply string_cons_inj in H as [H1 H]. apply string_cons_inj in H as [H0 _].
  apply digit_inj in H1, H0.
  rewrite <- (decimal2 a Ha), <- (decimal2 b Hb). congruence.
Qed.

Lemma strftime_filename t :
  DateTime.strftime FILENAME_DATETIME_FMT t =
  String (Str.digit (year t / 1000)) (String (Str.digit (year t / 100))
    (Str.pad2 (year t) +:+ "-" +:+ Str.pad2 (month t) +:+ "-"
     +:+ Str.pad2 (day t) +:+ "T" +:+ Str.pad2 (hour t) +:+ "_"
     +:+ Str.pad2 (minute t) +:+ "_" +:+ Str.pad2 (second t))).
Proof. reflexivity. Qed.

(** The time stamp of a backup name determines the second it was made. *)
Lemma strftime_filename_inj t1 t2 :
  in_range t1 -> in_range t2 ->
  DateTime.strftime FILENAME_DATETIME_FMT t1
    = DateTime.strftime FILENAME_DATETIME_FMT t2 ->
  t1 = t2.
Proof.
  intros (Hy1 & Hm1 & Hd1 & Hh1 & Hi1 & Hs1) (Hy2 & Hm2 & Hd2 & Hh2 & Hi2 & Hs2) H.
  rewrite !strftime_filename in H.
  apply string_cons_inj in H as [Ya H]. apply string_cons_inj in H as [Yb H].
  cbv [Str.pad2 String.append] in H.
  apply string_cons_inj in H as [Yc H]. apply string_cons_inj in H as [Yd H].
  apply string_cons_inj in H as [_ H].
  apply string_cons_inj in H as [Ma H]. apply string_cons_inj in H as [Mb H].
  apply string_cons_inj in H as [_ H].
  apply string_cons_inj in H as [Da H]. apply string_cons_inj in H as [Db H].
  apply string_cons_inj in H as [_ H].
  apply string_cons_inj in H as [Ha H]. apply string_cons_inj in H as [Hb H].
  apply string_cons_inj in H as [_ H].
  apply string_cons_inj in H as [Ia H]. apply string_cons_inj in H as [Ib H].
  apply string_cons_inj in H as [_ H].
  apply string_cons_inj in H as [Sa H]. apply string_cons_inj in H as [Sb _].
  apply digit_inj in Ya, Yb, Yc, Yd, Ma, Mb, Da, Db, Ha, Hb, Ia, Ib, Sa, Sb.
  destruct t1 as [y1 m1 d1 h1 i1 s1], t2 as [y2 m2 d2 h2 i2 s2];
    cbn [year month day hour minute second] in *.
  assert (y1 = y2)
    by (rewrite <- (decimal4 y1), <- (decimal4 y2) by lia; congruence).
  assert (m1 = m2)
    by (rewrite <- (decimal2 m1), <- (decimal2 m2) by lia; congruence).
  assert (d1 = d2)
    by (rewrite <- (decimal2 d1), <- (decimal2 d2) by lia; congruence).
  assert (h1 = h2)
    by (rewrite <- (decimal2 h1), <- (decimal2 h2) by lia; congruence).
  assert (i1 = i2)
    by (rewrite <- (decimal2 i1), <- (decimal2 i2) by lia; congruence).
  assert (s1 = s2)
    by (rewrite <- (decimal2 s1), <- (decimal2 s2) by lia; congruence).
  congruence.
Qed.

Lemma with_name_inv p n b :
  PurePath.with_name p n = Some b ->
  parts p <> [] /\ b = mkPath (anchored p) (removelast (parts p) ++ [n]).
Proof.
  unfold PurePath.with_name. destruct (parts p) eqn:E; [discriminate|].
  intros [= <-]. split; [discriminate|reflexivity].
Qed.

Section BackupPath.

Variable env : Env.

Lemma backup_path_inv path w b :
  (backup_path env path w).1 = inr b ->
  PurePath.with_name path
    (PurePath.name path +:+ "-" +:+
     DateTime.strftime FILENAME_DATETIME_FMT (clock env (ticks w))) = Some b /\
  exists_in env (fs w) b = false /\
  (backup_path env path w).2 = mkWorld (fs w) (S (ticks w)) (events w).
Proof.
  rewrite backup_path_run. cbv zeta.
  destruct (PurePath.with_name _ _) as [b'|]; [|discriminate].
  destruct (exists_in env (fs w) b') eqn:Ee; [discriminate|].
  simpl. intros [= <-]. auto.
Qed.

(** X2.  The path [backup_path] returns lies in the directory of the
    path it is asked about, under the name of that path followed by [-]
    and the time stamp; it is another path than the one asked about, and
    nothing exists at it.  The call reads the clock once and changes
    nothing. *)
Theorem backup_path_fresh_sibling path w b :
  (backup_path env path w).1 = inr b ->
  PurePath.parent b = PurePath.parent path /\
  PurePath.name b =
    PurePath.name path +:+ "-" +:+
    DateTime.strftime FILENAME_DATETIME_FMT (clock env (ticks w)) /\
  b <> path /\
  exists_in env (fs w) b = false /\
  (backup_path env path w).2 = mkWorld (fs w) (S (ticks w)) (events w).
Proof.
  intros H. apply backup_path_inv in H as (Hn & He & Hw).
  apply with_name_inv in Hn as (Hp & ->).
  assert (Hname : PurePath.name
                    (mkPath (anchored path)
                       (removelast (parts path) ++
                          [PurePath.name path +:+ "-" +:+
                           DateTime.strftime FILENAME_DATETIME_FMT
                             (clock env (ticks w))]))
                  = PurePath.name path +:+ "-" +:+
                    DateTime.strftime FILENAME_DATETIME_FMT (clock env (ticks w)))
    by (unfold PurePath.name at 1; cbn [parts]; apply last_last).
  split; [|split; [exact Hname|split; [|split; assumption]]].
  - unfold PurePath.parent. cbn [anchored parts].
    rewrite removelast_last. reflexivity.
  - intros Heq. apply (f_equal (fun p => String.length (PurePath.name p))) in Heq.
    rewrite Hname, !length_append in Heq. simpl in Heq. lia.
Qed.

(** X3.  Two backup paths computed for the same path at different
    seconds are different: a collision of backup names can only happen
    within one second. *)
Theorem backup_path_distinct_seconds (env' : Env) path w w' b b' :
  in_range (clock env (ticks w)) ->
  in_range (clock env' (ticks w')) ->
  clock env (ticks w) <> clock env' (ticks w') ->
  (backup_path env path w).1 = inr b ->
  (backup_path env' path w').1 = inr b' ->
  b <> b'.
Proof.
  intros Hr Hr' Hne H H' Heq. subst b'.
  apply backup_path_inv in H as (Hn & _). rewrite backup_path_run in H'.
  cbv zeta in H'.
  destruct (PurePath.with_name path
              (PurePath.name path +:+ "-" +:+
               DateTime.strftime FILENAME_DATETIME_FMT (clock env' (ticks w'))))
    as [b'|] eqn:Hn'; [|discriminate].
  destruct (exists_in env' (fs w') b'); [discriminate|].
  simpl in H'. injection H' as ->.
  apply with_name_inv in Hn as (_ & E), Hn' as (_ & E').
  rewrite E in E'. injection E' as E'.
  apply app_inv_head in E'. injection E' as E'.
  apply append_inj_l in E'. apply (append_inj_l "-") in E'.
  apply Hne. apply strftime_filename_inj; assumption.
Qed.

End BackupPath.

(** ** The name of a day directory and its date *)

Lemma take_Y_pad4 y rest :
  (y < 10 * 1000)%nat -> DateTime.take_Y (Str.pad4 y +:+ rest) = Some (y, rest).
Proof.
  intros Hy. unfold Str.pad4, Str.pad2. cbv [String.append DateTime.take_Y].
  rewrite !digit_val_digit. rewrite (decimal4 y Hy). reflexivity.
Qed.

Lemma take_m_pad2 m rest :
  (1 <= m <= 12)%nat -> DateTime.take_m (Str.pad2 m +:+ rest) = Some (m, rest).
Proof.
  intros Hm. do 13 (destruct m as [|m]; [first [lia|reflexivity]|]). lia.
Qed.

Lemma take_d_pad2 d rest :
  (1 <= d <= 31)%nat -> DateTime.take_d (Str.pad2 d +:+ rest) = Some (d, rest).
Proof.
  intros Hd. do 32 (destruct d as [|d]; [first [lia|reflexivity]|]). lia.
Qed.

Lemma strftime_date t :
  DateTime.strftime DATE_FMT t =
  Str.pad4 (year t) +:+ String "-" (Str.pad2 (month t) +:+ String "-"
    (Str.pad2 (day t) +:+ EmptyString)).
Proof. reflexivity. Qed.

Lemma valid_date_bounds y m d :
  DateTime.valid_date y m d = true ->
  (y < 10 * 1000 /\ 1 <= m <= 12 /\ 1 <= d <= 31)%nat.
Proof.
  unfold DateTime.valid_date. rewrite !andb_true_iff, !Nat.leb_le.
  intros (((((Hy1 & Hy2) & Hm1) & Hm2) & Hd1) & Hd2).
  assert (H9 : (9999 < 10 * 1000)%nat) by (apply Nat.ltb_lt; vm_compute; reflexivity).
  assert (DateTime.days_in_month y m <= 31)%nat.
  { unfold DateTime.days_in_month.
    do 13 (destruct m as [|m]; [try destruct (DateTime.is_leap y); lia|]). lia. }
  split; [eapply Nat.le_lt_trans; eassumption|]. lia.
Qed.

(** X4.  The name [strftime] gives to the directory of a day is a name
    [strptime] accepts, and it is read back as that day at midnight: the
    directory [main] creates for today is one [latest_day_dir] takes into
    account. *)
Theorem day_name_round_trip t :
  (1000 <= year t)%nat ->
  DateTime.valid_date (year t) (month t) (day t) = true ->
  DateTime.strptime (DateTime.strftime DATE_FMT t) DATE_FMT
    = Some (mkDT (year t) (month t) (day t) 0 0 0).
Proof.
  intros _ Hv. destruct (valid_date_bounds _ _ _ Hv) as (Hy & Hm & Hd).
  unfold DateTime.strptime. rewrite strftime_date.
  change (DateTime.match_fmt DATE_FMT ?s 1900 1 1) with
    (match DateTime.take_Y s with
     | Some (v, r) =>
         match r with
         | String c r' =>
             if Ascii.eqb "-" c then
               match DateTime.take_m r' with
               | Some (v', r'') =>
                   match r'' with
                   | String c' r3 =>
                       if Ascii.eqb "-" c' then
                         match DateTime.take_d r3 with
                         | Some (v'', r4) =>
                             match r4 with
                             | EmptyString => Some (v, v', v'')
                             | _ => None
                             end
                         | None => None
                         end
                       else None
                   | EmptyString => None
                   end
               | None => None
               end
             else None
         | EmptyString => None
         end
     | None => None
     end).
  rewrite take_Y_pad4 by exact Hy. simpl Ascii.eqb. cbv iota.
  rewrite take_m_pad2 by exact Hm. simpl Ascii.eqb. cbv iota.
  rewrite take_d_pad2 by exact Hd. rewrite Hv. reflexivity.
Qed.

(** ** [git_commit]: failures of [git], and the first run *)

Section GitCommitMore.

Variable env : Env.

(** X5.  A failing [git] stops [git_commit] where it fails
    ([check=True]): when [git status] exits with a non-zero status
    nothing else is run, and when [git add] does, no [git commit] is
    attempted. *)
Theorem git_commit_stops_on_git_failure repo w :
  is_dir_in env (fs w) repo = true ->
  (git env w repo STATUS = None ->
   git_commit env repo w =
     (inl (CalledProcessError STATUS), log (Run STATUS repo) w)) /\
  (forall out,
     git env w repo STATUS = Some out ->
     existsb (fun e => bool_decide (PurePath.name e.2 <> PREV_LINK))
       (parse_status repo out) = true ->
     let w1 :=
       mkWorld (fs w) (S (ticks w))
         (events w ++
            [Run STATUS repo;
             Printed (PurePath.to_str repo +:+ " has local changes, comitting")]) in
     git env w1 repo ["git"; "add"; "."] = None ->
     git_commit env repo w =
       (inl (CalledProcessError ["git"; "add"; "."]),
        log (Run ["git"; "add"; "."] repo) w1)).
Proof.
  intros Hd. split.
  - intros Hs. unfold git_commit. mstep. rewrite (is_dir_exists _ _ _ Hd).
    rewrite bind_unfold. unfold git_changes. rewrite bind_unfold.
    rewrite subprocess_run_eq by (assumption || discriminate).
    rewrite Hs. reflexivity.
  - intros out Hs Hex w1 Hadd. rewrite (git_commit_run _ _ _ _ Hd Hs), Hex.
    rewrite commit_changes_run by exact Hd. cbv zeta. subst w1.
    unfold log in *. simpl in *. rewrite <- !app_assoc in *. simpl in *.
    rewrite Hadd. reflexivity.
Qed.

Lemma mkdir_once_inv p exist_ok w :
  (mkdir_once env p exist_ok w).1 = inr tt ->
  exist_ok = false ->
  exists f',
    Fs.mkdir (cwd env) (fs w) p = inr f' /\
    (mkdir_once env p exist_ok w).2 = mkWorld f' (ticks w) (events w ++ [SysMkdir p]).
Proof.
  unfold mkdir_once. intros H ->.
  destruct (Fs.mkdir _ _ _) as [[]|f']; simpl in *; try discriminate.
  eauto.
Qed.

Lemma mkdir_grows f p f' :
  Fs.mkdir (cwd env) f p = inr f' -> f ⊆ f'.
Proof.
  unfold Fs.mkdir, Fs.create. destruct (Fs.locate _ _ _ _) as [e|l]; [discriminate|].
  destruct (Fs.get f l) eqn:G; [discriminate|]. intros [= <-].
  apply insert_subseteq. destruct l; [discriminate|exact G].
Qed.

Lemma only_mkdirs_refl w : only_mkdirs w w.
Proof.
  split; [reflexivity|]. exists []. rewrite app_nil_r.
  split; [reflexivity|constructor].
Qed.

Lemma only_mkdirs_step w f' p :
  only_mkdirs w (log (SysMkdir p) (mkWorld f' (ticks w) (events w))).
Proof.
  split; [reflexivity|]. exists [SysMkdir p].
  split; [reflexivity|repeat constructor].
Qed.

Lemma only_mkdirs_trans w1 w2 w3 :
  only_mkdirs w1 w2 -> only_mkdirs w2 w3 -> only_mkdirs w1 w3.
Proof.
  intros (Ht1 & m1 & He1 & Hm1) (Ht2 & m2 & He2 & Hm2).
  split; [congruence|]. exists (m1 ++ m2).
  split; [rewrite He2, He1, app_assoc; reflexivity|].
  apply Forall_app. split; assumption.
Qed.

Lemma mkdir_once_only_mkdirs p exist_ok w :
  only_mkdirs w (mkdir_once env p exist_ok w).2.
Proof.
  unfold mkdir_once. destruct (Fs.mkdir _ _ _) as [e|f'].
  - destruct e; simpl;
      try (destruct (negb exist_ok || negb (is_dir_in env (fs w) p)); simpl);
      apply only_mkdirs_refl.
  - apply only_mkdirs_step.
Qed.

Lemma mkdir_rec_only_mkdirs rparts : forall a parents exist_ok w,
  only_mkdirs w (mkdir_rec env a rparts parents exist_ok w).2.
Proof.
  induction rparts as [|c rparts IH]; intros a parents exist_ok w;
    cbn [mkdir_rec]; cbv zeta.
  - destruct (Fs.mkdir _ _ _) as [e|f']; [|apply only_mkdirs_step].
    destruct e; simpl;
      try (destruct parents; simpl);
      try (destruct (negb exist_ok || negb (is_dir_in env (fs w) _)); simpl);
      apply only_mkdirs_refl.
  - destruct (Fs.mkdir _ _ _) as [e|f']; [|apply only_mkdirs_step].
    destruct e; simpl;
      try (destruct (negb exist_ok || negb (is_dir_in env (fs w) _)); simpl);
      try apply only_mkdirs_refl.
    destruct parents; simpl; [|apply only_mkdirs_refl].
    rewrite bind_unfold. specialize (IH a true true w).
    destruct (mkdir_rec env a rparts true true w) as [[e|[]] w1];
      simpl in *; [exact IH|].
    eapply only_mkdirs_trans; [exact IH|]. apply mkdir_once_only_mkdirs.
Qed.

(** [Path.mkdir(parents=True)] without [exist_ok], when it returns: it
    has made directories and nothing else, the last of them the path
    itself. *)
Lemma mkdir_rec_inv rparts a parents w :
  (mkdir_rec env a rparts parents false w).1 = inr tt ->
  let w' := (mkdir_rec env a rparts parents false w).2 in
  ticks w' = ticks w /\
  exists mk,
    events w' = events w ++ mk ++ [SysMkdir (mkPath a (rev rparts))] /\
    Forall is_mkdir mk.
Proof.
  destruct rparts as [|c rparts]; cbn [mkdir_rec]; cbv zeta.
  - destruct (Fs.mkdir _ _ _) as [e|f'].
    + destruct e; simpl; try (destruct parents; simpl); discriminate.
    + intros _. split; [reflexivity|]. exists [].
      split; [reflexivity|constructor].
  - destruct (Fs.mkdir _ _ _) as [e|f'].
    + destruct e; simpl; try discriminate.
      destruct parents; simpl; [|discriminate].
      rewrite bind_unfold.
      pose proof (mkdir_rec_only_mkdirs rparts a true true w) as (Ht & mk & He & Hmk).
      destruct (mkdir_rec env a rparts true true w) as [[e|[]] w1];
        simpl in *; [discriminate|].
      intros H. destruct (mkdir_once_inv _ _ _ H eq_refl) as (f1 & _ & ->).
      simpl. split; [exact Ht|]. exists mk. split; [|exact Hmk].
      rewrite He, <- app_assoc. reflexivity.
    + intros _. split; [reflexivity|]. exists [].
      split; [reflexivity|constructor].
Qed.

(** X6.  On a repository path where nothing exists, a [git_commit] that
    returns has made the directory (after the parents it lacked) and run
    one subprocess, [git init], in it: no [git status], no [git add], no
    [git commit], and no read of the clock. *)
Theorem git_commit_initialises_missing_repository repo w :
  exists_in env (fs w) repo = false ->
  (git_commit env repo w).1 = inr tt ->
  let w' := (git_commit env repo w).2 in
  ticks w' = ticks w /\
  exists mk,
    Forall is_mkdir mk /\
    events w' =
      events w ++
        [Printed (PurePath.to_str repo +:+ " doesn't exist, creating")] ++
        mk ++
        [SysMkdir repo;
         Printed ("Running `git init` in " +:+ PurePath.to_str repo);
         Run ["git"; "init"] repo].
Proof.
  intros Hne. unfold git_commit. mstep. rewrite Hne.
  rewrite bind_unfold. simpl. rewrite bind_unfold. unfold path_mkdir.
  pose proof (mkdir_rec_inv (rev (parts repo)) (anchored repo) true
                (log (Printed (PurePath.to_str repo +:+ " doesn't exist, creating")) w))
    as Hmk.
  destruct (mkdir_rec env (anchored repo) (rev (parts repo)) true false _)
    as [[e|[]] w1]; simpl in *; [discriminate|].
  destruct (Hmk eq_refl) as (Ht & mk & He & Hall). clear Hmk.
  rewrite rev_involutive in He.
  replace (mkPath (anchored repo) (parts repo)) with repo in He
    by (destruct repo; reflexivity).
  rewrite bind_unfold. simpl. rewrite bind_unfold.
  unfold subprocess_run. simpl.
  destruct (Fs.locate _ _ _ _) as [e|l]; simpl; [discriminate|].
  destruct (Fs.get (fs w1) l) as [[]|]; simpl; try discriminate.
  destruct (git env _ repo _); simpl; [|discriminate].
  intros _. split; [exact Ht|]. exists mk. split; [exact Hall|].
  rewrite He. rewrite <- !app_assoc. reflexivity.
Qed.

End GitCommitMore.

(** ** [ensure_symlink_to]: what its result tells, and the empty name *)

Section EnsureMore.

Variable env : Env.

Lemma lstat_error_stat f path e :
  Fs.lstat (cwd env) f path = inl e -> Fs.stat (cwd env) f path = inl e.
Proof.
  unfold Fs.lstat, Fs.stat, Fs.inode_at, Fs.locate. intros El.
  rewrite walk_follow_irrelevant; [exact El|].
  destruct (Fs.walk _ _ false _ _) as [|l]; [exact I|].
  intros t Ht. rewrite Ht in El. discriminate.
Qed.

(** The call on a path where nothing is, in a directory that exists. *)
Lemma ensure_on_nothing path dest w e :
  Fs.lstat (cwd env) (fs w) path = inl e ->
  exists_in env (fs w) (PurePath.parent path) = true ->
  ensure_symlink_to env path dest w = link_and_report env path dest w.
Proof.
  intros El Hp. unfold ensure_symlink_to.
  mstep. rewrite Hp. mstep. mstep. rewrite is_symlink_in_lstat, El.
  mstep. unfold exists_in. rewrite (lstat_error_stat _ _ _ El). mstep.
  reflexivity.
Qed.

(** X7.  In a directory that exists, [ensure_symlink_to] returns [False]
    only when there was nothing to do: the path was a symbolic link
    already and its target, read from [path.parent], was [dest].  In
    every other case a call that returns has returned [True]. *)
Theorem ensure_symlink_to_reports_work_exactly path dest w r :
  exists_in env (fs w) (PurePath.parent path) = true ->
  (ensure_symlink_to env path dest w).1 = inr r ->
  (r = false <->
   exists t, Fs.lstat (cwd env) (fs w) path = inr (Link t) /\
             PurePath.parent path // t = dest).
Proof.
  intros Hp H.
  destruct (Fs.lstat (cwd env) (fs w) path) as [e|i] eqn:El.
  - rewrite (ensure_on_nothing _ dest _ _ El Hp) in H.
    destruct (link_and_report_ok _ _ _ _ _ H) as (-> & _).
    split; [discriminate|]. intros (t & Ht & _). discriminate.
  - assert (Hcases : (exists t, i = Link t) \/ (forall t, i <> Link t))
      by (destruct i; [right; discriminate|right; discriminate|left; eauto]).
    destruct Hcases as [[t ->]|Hi].
    + rewrite (ensure_on_link _ _ _ _ _ El) in H.
      destruct (bool_decide (PurePath.parent path // t = dest)) eqn:Eq.
      * apply bool_decide_eq_true in Eq. simpl in H. injection H as <-.
        split; [eauto|reflexivity].
      * apply bool_decide_eq_false in Eq.
        rewrite bind_unfold in H. unfold path_unlink, syscall in H.
        destruct (Fs.unlink _ _ _) as [e|f1]; simpl in H; [discriminate|].
        destruct (link_and_report_ok _ _ _ _ _ H) as (-> & _).
        split; [discriminate|]. intros (t' & [= <-] & Ht). contradiction.
    + destruct (ensure_on_real_ok _ _ _ _ _ _ El Hi H) as (-> & _).
      split; [discriminate|]. intros (t & [= ->] & _).
      exfalso. eapply Hi. reflexivity.
Qed.

(** X8.  A path without components (the root, or [.] in a working
    directory that exists) has an empty name: [ensure_symlink_to] raises
    the [ValueError] of [with_name] before it prints or changes
    anything. *)
Theorem ensure_symlink_to_refuses_empty_name path dest w :
  parts path = [] ->
  Fs.get (fs w) (if anchored path then [] else cwd env) = Some Dir ->
  exists msg,
    ensure_symlink_to env path dest w =
      (inl (ValueError msg), mkWorld (fs w) (S (ticks w)) (events w)).
Proof.
  intros Hp Hd.
  assert (El : Fs.lstat (cwd env) (fs w) path = inr Dir).
  { unfold Fs.lstat, Fs.inode_at, Fs.locate. rewrite Hp, walk_nil, Hd. reflexivity. }
  rewrite (ensure_on_real _ _ dest _ _ El) by discriminate.
  rewrite bind_unfold. rewrite bind_unfold. rewrite backup_path_run. cbv zeta.
  unfold PurePath.with_name. rewrite Hp. eexists. reflexivity.
Qed.

End EnsureMore.

(** ** The effects of a run are confined *)

Section Bounded.

Variable env : Env.
Variable Q : event -> Prop.

Lemma bounded_same {A} (m : M A) :
  (forall w, events (m w).2 = events w) -> bounded Q m.
Proof.
  intros H w. exists []. rewrite app_nil_r. split; [apply H|constructor].
Qed.

Lemma bounded_ret {A} (a : A) : bounded Q (mret a).
Proof. apply bounded_same. reflexivity. Qed.

Lemma bounded_raise {A} (e : exn) : bounded Q (@raise A e).
Proof. apply bounded_same. reflexivity. Qed.

Lemma bounded_query {A} (q : gmap (list string) inode -> A) : bounded Q (query q).
Proof. apply bounded_same. reflexivity. Qed.

Lemma bounded_now : bounded Q (now env).
Proof. apply bounded_same. reflexivity. Qed.

Lemma bounded_readlink p : bounded Q (os_readlink env p).
Proof.
  apply bounded_same. intros w. unfold os_readlink.
  destruct (Fs.readlink _ _ _); reflexivity.
Qed.

Lemma bounded_iterdir p : bounded Q (iterdir env p).
Proof.
  apply bounded_same. intros w. unfold iterdir.
  destruct (Fs.listdir _ _ _); reflexivity.
Qed.

Lemma bounded_print line : Q (Printed line) -> bounded Q (print line).
Proof.
  intros H w. exists [Printed line]. split; [reflexivity|repeat constructor; exact H].
Qed.

Lemma bounded_syscall ev op : Q ev -> bounded Q (syscall ev op).
Proof.
  intros H w. unfold syscall. destruct (op (fs w)); simpl.
  - exists []. rewrite app_nil_r. split; [reflexivity|constructor].
  - exists [ev]. split; [reflexivity|repeat constructor; exact H].
Qed.

Lemma bounded_bind_post {A B} (P : A -> Prop) (m : M A) (k : A -> M B) :
  bounded Q m ->
  (forall w a, (m w).1 = inr a -> P a) ->
  (forall a, P a -> bounded Q (k a)) ->
  bounded Q (m ≫= k).
Proof.
  intros Hm Hpost Hk w. rewrite bind_unfold.
  destruct (Hm w) as (n1 & E1 & F1). specialize (Hpost w).
  destruct (m w) as [[e|a] w1]; simpl in *; [exists n1; auto|].
  destruct (Hk a (Hpost a eq_refl) w1) as (n2 & E2 & F2).
  exists (n1 ++ n2). split; [rewrite E2, E1, app_assoc; reflexivity|].
  apply Forall_app. split; assumption.
Qed.

Lemma bounded_bind {A B} (m : M A) (k : A -> M B) :
  bounded Q m -> (forall a, bounded Q (k a)) -> bounded Q (m ≫= k).
Proof.
  intros Hm Hk. apply (bounded_bind_post (fun _ => True)); auto.
Qed.

Lemma bounded_for_each {A} (P : A -> Prop) (body : A -> M unit) l :
  (forall x, P x -> bounded Q (body x)) ->
  Forall P l -> bounded Q (for_each l body).
Proof.
  intros Hbody. induction l as [|x l IH]; intros Hl; simpl.
  - apply bounded_ret.
  - apply Forall_cons in Hl as [Hx Hl].
    apply bounded_bind; [apply Hbody, Hx|]. intros _. apply IH, Hl.
Qed.

Lemma bounded_mkdir_once p exist_ok :
  Q (SysMkdir p) -> bounded Q (mkdir_once env p exist_ok).
Proof.
  intros H w. unfold mkdir_once. destruct (Fs.mkdir _ _ _) as [e|f'].
  - exists []. rewrite app_nil_r. split; [|constructor].
    destruct e; simpl;
      try (destruct (negb exist_ok || negb (is_dir_in env (fs w) p)));
      reflexivity.
  - exists [SysMkdir p]. split; [reflexivity|repeat constructor; exact H].
Qed.

Lemma bounded_mkdir_rec rparts : forall a parents exist_ok,
  (forall p, Q (SysMkdir p)) ->
  bounded Q (mkdir_rec env a rparts parents exist_ok).
Proof.
  intros a parents exist_ok H w.
  destruct (mkdir_rec_only_mkdirs env rparts a parents exist_ok w)
    as (_ & mk & He & Hmk).
  exists mk. split; [exact He|].
  eapply Forall_impl; [exact Hmk|]. intros [] Hx; try contradiction. apply H.
Qed.

Lemma bounded_subprocess argv dir :
  Q (Run argv dir) -> bounded Q (subprocess_run env argv dir).
Proof.
  intros H w. unfold subprocess_run.
  destruct (Fs.locate _ _ _ _) as [e|l];
    [exists []; rewrite app_nil_r; split; [reflexivity|constructor]|].
  destruct (Fs.get (fs w) l) as [[]|];
    try (exists []; rewrite app_nil_r; split; [reflexivity|constructor]).
  destruct (git env w dir argv);
    (exists [Run argv dir]; split; [reflexivity|repeat constructor; exact H]).
Qed.

End Bounded.

Ltac bnd :=
  repeat first
    [ apply bounded_ret | apply bounded_raise | apply bounded_query
    | apply bounded_now | apply bounded_readlink | apply bounded_iterdir
    | apply bounded_print | apply bounded_syscall | apply bounded_mkdir_rec
    | apply bounded_subprocess
    | apply bounded_bind; [|intros ?]
    | match goal with
      | |- bounded _ (if ?b then _ else _) => destruct b
      | |- bounded _ (match ?o with _ => _ end) => destruct o
      end ].

Section Confined.

Variable env : Env.

Lemma backup_path_sibling path w b :
  (backup_path env path w).1 = inr b ->
  PurePath.parent b = PurePath.parent path /\ b <> path.
Proof.
  intros H. apply backup_path_inv in H as (Hn & _).
  apply with_name_inv in Hn as (_ & ->). split.
  - unfold PurePath.parent. cbn [anchored parts].
    rewrite removelast_last. reflexivity.
  - intros Heq. apply (f_equal (fun p => String.length (PurePath.name p))) in Heq.
    unfold PurePath.name at 1 in Heq. cbn [parts] in Heq.
    rewrite last_last, !length_append in Heq. simpl in Heq. lia.
Qed.

Lemma bounded_backup_path Q path : bounded Q (backup_path env path).
Proof.
  apply bounded_same. intros w. rewrite backup_path_run. cbv zeta.
  destruct (PurePath.with_name _ _) as [b|]; [|reflexivity].
  destruct (exists_in env (fs w) b); reflexivity.
Qed.

Lemma bounded_ensure_symlink_to (Q : event -> Prop) path dest :
  (forall line, Q (Printed line)) ->
  (forall p, Q (SysMkdir p)) ->
  Q (SysUnlink path) ->
  (forall b, PurePath.parent b = PurePath.parent path -> b <> path ->
             Q (SysRename path b)) ->
  Q (SysSymlink dest path) ->
  bounded Q (ensure_symlink_to env path dest).
Proof.
  intros HP HM HU HR HS.
  unfold ensure_symlink_to, link_and_report, path_exists, is_symlink,
    path_unlink, symlink_to, path_mkdir.
  apply bounded_bind; [bnd|]. intros pe.
  apply bounded_bind; [destruct pe; bnd; auto|]. intros _.
  apply bounded_bind; [bnd|]. intros [|].
  - bnd; auto.
  - apply bounded_bind; [bnd|]. intros e.
    apply bounded_bind; [|intros _; bnd; auto].
    destruct e; [|bnd].
    apply (bounded_bind_post Q
             (fun b => PurePath.parent b = PurePath.parent path /\ b <> path)).
    + apply bounded_backup_path.
    + intros w b. apply backup_path_sibling.
    + intros b [Hb1 Hb2]. unfold path_rename. bnd; auto.
Qed.

Lemma bounded_remove_empty_dirs (Q : event -> Prop) path other_than :
  (forall line, Q (Printed line)) ->
  (forall n, path // mkPath false [n] ∉ other_than ->
             Q (SysRmdir (path // mkPath false [n]))) ->
  bounded Q (remove_empty_dirs env path other_than).
Proof.
  intros HP HR. unfold remove_empty_dirs.
  apply (bounded_bind_post Q
           (Forall (fun child => exists n, child = path // mkPath false [n]))).
  - apply bounded_iterdir.
  - intros w children. unfold iterdir.
    destruct (Fs.listdir _ _ _) as [e|names]; simpl; [discriminate|].
    intros [= <-]. apply Forall_forall. intros child Hin.
    apply list_elem_of_fmap in Hin as (n & -> & _). eauto.
  - intros children Hall.
    apply (bounded_for_each Q
             (fun child => exists n, child = path // mkPath false [n]));
      [|exact Hall].
    intros child [n ->].
    destruct (bool_decide _) eqn:Ein; [bnd|].
    apply bool_decide_eq_false in Ein.
    unfold is_dir, path_rmdir. bnd; auto.
Qed.

Lemma bounded_git_commit (Q : event -> Prop) repo :
  (forall line, Q (Printed line)) ->
  (forall p, Q (SysMkdir p)) ->
  (forall argv,
     argv = STATUS \/ argv = ["git"; "add"; "."] \/ argv = ["git"; "init"] \/
     (exists d, argv = ["git"; "commit"; "-m"; d; "-m";
                        "Temporary / scratch work until " +:+ d]) ->
     Q (Run argv repo)) ->
  bounded Q (git_commit env repo).
Proof.
  intros HP HM HR.
  unfold git_commit, git_changes, commit_changes, path_exists, path_mkdir.
  bnd; auto 6. apply HR. right. right. right. eauto.
Qed.

Lemma latest_day_dir_child path w l :
  (latest_day_dir env path w).1 = inr (Some l) ->
  exists n, l = path // mkPath false [n].
Proof.
  rewrite latest_day_dir_run.
  destruct (Fs.listdir _ _ _) as [e|names]; [discriminate|]. cbv zeta.
  assert (H0 : latest_of path [] (sentinel, path)).
  { left. split; [reflexivity|]. intros n d Hin. inversion Hin. }
  pose proof (latest_fold_inv path names [] _ H0) as H. simpl in H.
  destruct H as [[E _]|(n & _ & Hp & _)].
  - rewrite E. simpl. discriminate.
  - simpl. destruct (bool_decide _); [discriminate|].
    intros [= <-]. eauto.
Qed.

Lemma bounded_latest_day_dir Q path : bounded Q (latest_day_dir env path).
Proof.
  apply bounded_same. intros w. rewrite latest_day_dir_run.
  destruct (Fs.listdir _ _ _); reflexivity.
Qed.

(** X9.  Whatever the world, and whether the run returns or raises, the
    effects of [main] are confined: besides printing and making
    directories it unlinks or renames nothing but the working path and
    its [prev] entry (a rename going to another name in the same
    directory), makes links at these two paths only, removes only
    children of the repository, never today's directory, and runs only
    [git status], [git add .], [git init] and [git commit] with the two
    messages, in the repository. *)
Theorem main_effects_confined args w :
  let day_dir :=
    PurePath.join_str (repo_path args)
      (DateTime.strftime DATE_FMT (clock env (ticks w))) in
  exists new,
    events (main env args w).2 = events w ++ new /\
    Forall (main_event args day_dir) new.
Proof.
  intros day_dir. unfold main. rewrite bind_unfold.
  change (now env w) with
    (@inr exn _ (clock env (ticks w)), mkWorld (fs w) (S (ticks w)) (events w)).
  cbv iota beta. fold day_dir.
  match goal with
  | |- exists new, events (?m ?v).2 = _ /\ _ =>
      assert (Hb : bounded (main_event args day_dir) m)
  end.
  2:{ destruct (Hb (mkWorld (fs w) (S (ticks w)) (events w))) as (new & He & Hall).
      exists new. split; [exact He|exact Hall]. }
  assert (HP : forall line, main_event args day_dir (Printed line)) by (intros; exact I).
  assert (HM : forall p, main_event args day_dir (SysMkdir p)) by (intros; exact I).
  unfold path_exists.
  apply bounded_bind; [bnd|]. intros day_dir_is_ok.
  apply bounded_bind.
  { apply bounded_ensure_symlink_to; auto; simpl; auto. }
  intros working_path_is_ok.
  apply bounded_bind; [bnd; auto|]. intros _.
  destruct (full args || negb day_dir_is_ok || negb working_path_is_ok); [|bnd].
  apply bounded_bind.
  { apply bounded_git_commit; auto. intros argv Hargv. simpl. auto. }
  intros _. apply bounded_bind.
  { apply bounded_remove_empty_dirs; auto. intros n Hn. simpl. split; [|eauto].
    intros Heq. apply Hn. rewrite Heq. apply list_elem_of_singleton. reflexivity. }
  intros _.
  apply (bounded_bind_post _
           (fun latest => forall l, latest = Some l ->
                          exists n, l = repo_path args // mkPath false [n])).
  { apply bounded_latest_day_dir. }
  { intros v latest Hl l ->. eapply latest_day_dir_child; eassumption. }
  intros latest Hlatest.
  apply bounded_bind.
  { unfold path_mkdir. destruct (negb day_dir_is_ok); bnd; auto. }
  intros _. destruct latest as [l|]; [|bnd].
  destruct (Hlatest l eq_refl) as [n ->].
  apply bounded_bind; [bnd; auto|]. intros _.
  apply bounded_bind; [|intros; bnd].
  apply bounded_ensure_symlink_to; auto; simpl; eauto 6.
Qed.

End Confined.

(** ** [git_changes]: the lines of the output *)

Lemma append_nil_r s : s +:+ EmptyString = s.
Proof. induction s as [|a s IH]; simpl; [reflexivity|]. unfold String.append in *. fold String.append in *. rewrite IH. reflexivity. Qed.

Lemma append_cons a s t : String a s +:+ t = String a (s +:+ t).
Proof. reflexivity. Qed.

Lemma append_assoc s : forall t u, (s +:+ t) +:+ u = s +:+ (t +:+ u).
Proof.
  induction s as [|a s IH]; intros t u; [reflexivity|].
  rewrite !append_cons, IH. reflexivity.
Qed.

Lemma nl_append t : nl +:+ t = String (ascii_of_nat 10) t.
Proof. reflexivity. Qed.

Lemma lstrip_app s t :
  Str.lstrip s <> EmptyString -> Str.lstrip (s +:+ t) = Str.lstrip s +:+ t.
Proof.
  induction s as [|a s IH]; intros H; [contradiction|].
  rewrite append_cons. cbn [Str.lstrip] in *.
  destruct (Str.isspace a); [auto|reflexivity].
Qed.

Lemma one_line_lstrip s : one_line s = true -> one_line (Str.lstrip s) = true.
Proof.
  induction s as [|a s IH]; intros H; [reflexivity|].
  cbn [Str.lstrip]. destruct (Str.isspace a); [|exact H].
  apply IH. unfold one_line in *. cbn [all_chars] in H.
  apply andb_true_iff in H as [_ H]. exact H.
Qed.

Lemma ends_visible_cons a s :
  s <> EmptyString -> ends_visible (String a s) = ends_visible s.
Proof. destruct s; [contradiction|reflexivity]. Qed.

Lemma ends_visible_nonempty s : ends_visible s = true -> s <> EmptyString.
Proof. destruct s; [discriminate|discriminate]. Qed.

Lemma ends_visible_lstrip s :
  ends_visible s = true -> ends_visible (Str.lstrip s) = true.
Proof.
  induction s as [|a s IH]; intros H; [discriminate|].
  cbn [Str.lstrip]. destruct (Str.isspace a) eqn:Ea; [|exact H].
  destruct s as [|b s]; [cbn in H; rewrite Ea in H; discriminate|].
  apply IH. exact H.
Qed.

Lemma ends_visible_app s t :
  ends_visible t = true -> ends_visible (s +:+ t) = true.
Proof.
  intros Ht. induction s as [|a s IH]; [exact Ht|].
  rewrite append_cons, ends_visible_cons; [exact IH|].
  apply ends_visible_nonempty, IH.
Qed.

Lemma rstrip_cons a s :
  Str.rstrip (String a s) =
  match Str.rstrip s with
  | EmptyString => if Str.isspace a then EmptyString else String a EmptyString
  | r => String a r
  end.
Proof. reflexivity. Qed.

Lemma rstrip_visible s : ends_visible s = true -> Str.rstrip s = s.
Proof.
  induction s as [|a s IH]; intros H; [discriminate|].
  destruct s as [|b s].
  - cbn in *. destruct (Str.isspace a); [discriminate|reflexivity].
  - rewrite rstrip_cons, IH by exact H. reflexivity.
Qed.

Lemma rstrip_nl s : Str.rstrip (s +:+ nl) = Str.rstrip s.
Proof.
  induction s as [|a s IH]; [reflexivity|].
  rewrite append_cons, !rstrip_cons, IH. reflexivity.
Qed.

Lemma unlines_join ls :
  ls <> [] -> unlines ls = Str.join nl ls +:+ nl.
Proof.
  induction ls as [|l ls IH]; intros H; [contradiction|].
  destruct ls as [|l' ls].
  - cbn [unlines Str.join]. rewrite append_nil_r. reflexivity.
  - cbn [unlines Str.join] in *. rewrite IH by discriminate.
    rewrite !append_assoc. reflexivity.
Qed.

Lemma ends_visible_join ls d :
  ls <> [] -> ends_visible (List.last ls d) = true ->
  ends_visible (Str.join nl ls) = true.
Proof.
  induction ls as [|l ls IH]; intros H Hl; [contradiction|].
  destruct ls as [|l' ls]; [exact Hl|].
  cbn [Str.join]. apply ends_visible_app, ends_visible_app.
  apply IH; [discriminate|exact Hl].
Qed.

Lemma splitlines_from_line l : forall acc t,
  one_line l = true ->
  Str.splitlines_from acc (l +:+ String (ascii_of_nat 10) t) =
    string_of_list_ascii (rev acc ++ list_ascii_of_string l)
      :: Str.splitlines_from [] t.
Proof.
  induction l as [|a l IH]; intros acc t H.
  - cbn. rewrite app_nil_r. destruct t; reflexivity.
  - unfold one_line in H. cbn [all_chars] in H.
    apply andb_true_iff in H as [Ha H]. apply negb_true_iff in Ha.
    rewrite append_cons. cbn [Str.splitlines_from]. rewrite Ha.
    rewrite IH by exact H. cbn [rev list_ascii_of_string].
    rewrite <- app_assoc. reflexivity.
Qed.

Lemma splitlines_from_last l : forall acc,
  one_line l = true ->
  rev acc ++ list_ascii_of_string l <> [] ->
  Str.splitlines_from acc l =
    [string_of_list_ascii (rev acc ++ list_ascii_of_string l)].
Proof.
  induction l as [|a l IH]; intros acc H Hne.
  - cbn in *. rewrite app_nil_r in *. destruct acc; [contradiction|reflexivity].
  - unfold one_line in H. cbn [all_chars] in H.
    apply andb_true_iff in H as [Ha H]. apply negb_true_iff in Ha.
    cbn [Str.splitlines_from]. rewrite Ha.
    rewrite IH; [|exact H|]; cbn [rev list_ascii_of_string];
      rewrite <- app_assoc; [reflexivity|exact Hne].
Qed.

Lemma splitlines_join ls d :
  ls <> [] ->
  Forall (fun l => one_line l = true) ls ->
  List.last ls d <> EmptyString ->
  Str.splitlines (Str.join nl ls) = ls.
Proof.
  unfold Str.splitlines.
  induction ls as [|l ls IH]; intros H Hall Hl; [contradiction|].
  apply Forall_cons in Hall as [Hone Hall].
  destruct ls as [|l' ls].
  - cbn [Str.join]. rewrite splitlines_from_last; cbn [rev app].
    + rewrite string_of_list_ascii_of_string. reflexivity.
    + exact Hone.
    + cbn in Hl. destruct l; [contradiction|discriminate].
  - cbn [Str.join]. rewrite nl_append, splitlines_from_line by exact Hone.
    cbn [rev app]. rewrite string_of_list_ascii_of_string.
    f_equal. apply IH; [discriminate|exact Hall|exact Hl].
Qed.

(** What [stdout.strip().splitlines()] makes of the lines [git] prints. *)
Lemma strip_splitlines_unlines first rest :
  Forall (fun l => one_line l = true) (first :: rest) ->
  Str.lstrip first <> EmptyString ->
  ends_visible (List.last rest first) = true ->
  Str.splitlines (Str.strip (unlines (first :: rest))) = Str.lstrip first :: rest.
Proof.
  intros Hall Hfirst Hlast. unfold Str.strip. cbn [unlines].
  rewrite lstrip_app by exact Hfirst.
  change (Str.lstrip first +:+ nl +:+ unlines rest)
    with (unlines (Str.lstrip first :: rest)).
  rewrite unlines_join by discriminate. rewrite rstrip_nl.
  assert (Hlast' : ends_visible (List.last (Str.lstrip first :: rest) first) = true).
  { destruct rest as [|l rest]; [apply ends_visible_lstrip; exact Hlast|].
    exact Hlast. }
  rewrite rstrip_visible by (eapply ends_visible_join; [discriminate|exact Hlast']).
  apply (splitlines_join _ first); [discriminate| |].
  - apply Forall_cons in Hall as [H1 Hall].
    apply Forall_cons. split; [apply one_line_lstrip; exact H1|exact Hall].
  - apply ends_visible_nonempty. exact Hlast'.
Qed.

(** X10.  [git_changes] makes one entry of each line [git status]
    prints, in order: the first two characters, and the repository
    joined with the line from the fourth character on.  The output is
    stripped as a whole first, so the first line is taken without its
    leading blanks: a first line [ M path] gives the status [M ] and the
    path without its first character. *)
Theorem parse_status_lines repo first rest :
  Forall (fun l => one_line l = true) (first :: rest) ->
  Str.lstrip first <> EmptyString ->
  ends_visible (List.last rest first) = true ->
  parse_status repo (unlines (first :: rest)) =
    map (fun line => (Str.take 2 line, PurePath.join_str repo (Str.drop 3 line)))
      (Str.lstrip first :: rest) /\
  forall y p,
    first = String " " (String y (String " " p)) ->
    Str.isspace y = false ->
    head (parse_status repo (unlines (first :: rest))) =
      Some (String y " ", PurePath.join_str repo (Str.drop 1 p)).
Proof.
  intros Hall Hfirst Hlast.
  assert (E : parse_status repo (unlines (first :: rest)) =
              map (fun line =>
                     (Str.take 2 line, PurePath.join_str repo (Str.drop 3 line)))
                (Str.lstrip first :: rest)).
  { unfold parse_status.
    rewrite (strip_splitlines_unlines _ _ Hall Hfirst Hlast). reflexivity. }
  split; [exact E|].
  intros y p -> Hy. rewrite E. cbn [Str.lstrip map head].
  replace (Str.isspace " ") with true by reflexivity.
  rewrite Hy. reflexivity.
Qed.

(** ** [git_changes]: paths read back *)

Lemma split_from_component c : forall acc t,
  all_chars (fun a => negb (Ascii.eqb a "/")) c = true ->
  Str.split_from "/" acc (c +:+ String "/" t) =
    string_of_list_ascii (rev acc ++ list_ascii_of_string c)
      :: Str.split_from "/" [] t.
Proof.
  induction c as [|a c IH]; intros acc t H.
  - cbn. rewrite app_nil_r. reflexivity.
  - cbn [all_chars] in H. apply andb_true_iff in H as [Ha H].
    apply negb_true_iff in Ha.
    rewrite append_cons. cbn [Str.split_from]. rewrite Ha.
    rewrite IH by exact H. cbn [rev list_ascii_of_string].
    rewrite <- app_assoc. reflexivity.
Qed.

Lemma split_from_last c : forall acc,
  all_chars (fun a => negb (Ascii.eqb a "/")) c = true ->
  Str.split_from "/" acc c =
    [string_of_list_ascii (rev acc ++ list_ascii_of_string c)].
Proof.
  induction c as [|a c IH]; intros acc H.
  - cbn. rewrite app_nil_r. reflexivity.
  - cbn [all_chars] in H. apply andb_true_iff in H as [Ha H].
    apply negb_true_iff in Ha.
    cbn [Str.split_from]. rewrite Ha, IH by exact H.
    cbn [rev list_ascii_of_string]. rewrite <- app_assoc. reflexivity.
Qed.

Lemma split_join l :
  l <> [] -> Forall component_ok l -> Str.split "/" (Str.join "/" l) = l.
Proof.
  unfold Str.split.
  induction l as [|c l IH]; intros H Hall; [contradiction|].
  apply Forall_cons in Hall as [(_ & _ & Hc) Hall].
  destruct l as [|c' l].
  - cbn [Str.join]. rewrite split_from_last by exact Hc.
    cbn [rev app]. rewrite string_of_list_ascii_of_string. reflexivity.
  - replace (Str.join "/" (c :: c' :: l))
      with (c +:+ String "/" (Str.join "/" (c' :: l))) by reflexivity.
    rewrite split_from_component by exact Hc.
    cbn [rev app]. rewrite string_of_list_ascii_of_string.
    f_equal. apply IH; [discriminate|exact Hall].
Qed.

Lemma filter_components l :
  Forall component_ok l ->
  filter (fun c : string => c <> "" /\ c <> ".") l = l.
Proof.
  induction l as [|c l IH]; intros Hall; [reflexivity|].
  apply Forall_cons in Hall as [(H1 & H2 & _) Hall].
  rewrite filter_cons_True by (split; assumption). rewrite IH by exact Hall.
  reflexivity.
Qed.

(** [Path(str(p)) == p] for a relative path. *)
Lemma of_str_to_str q :
  anchored q = false -> Forall component_ok (parts q) ->
  PurePath.of_str (PurePath.to_str q) = q.
Proof.
  destruct q as [a l]. cbn [anchored parts]. intros -> Hall.
  unfold PurePath.to_str. cbn [anchored parts].
  destruct l as [|c l]; [reflexivity|].
  unfold PurePath.of_str. rewrite split_join by (discriminate || exact Hall).
  rewrite filter_components by exact Hall. f_equal.
  apply Forall_cons in Hall as [(Hne & _ & Hc) _].
  destruct c as [|x c]; [contradiction|].
  assert (Hx : Ascii.eqb x "/" = false).
  { cbn [all_chars] in Hc. apply andb_true_iff in Hc as [Hx _].
    apply negb_true_iff in Hx. exact Hx. }
  assert (Hhead : exists t, Str.join "/" (String x c :: l) = String x t)
    by (destruct l; cbn [Str.join]; eexists; reflexivity).
  destruct Hhead as [t ->].
  apply Ascii.eqb_neq in Hx.
  destruct x as [[] [] [] [] [] [] [] []]; try reflexivity.
  exfalso. apply Hx. reflexivity.
Qed.

Lemma take_drop_render e :
  String.length e.1 = 2 ->
  Str.take 2 (render e) = e.1 /\ Str.drop 3 (render e) = PurePath.to_str e.2.
Proof.
  unfold render. destruct e as [code q]. cbn [fst snd].
  destruct code as [|a [|b [|c code]]]; try discriminate.
  intros _. split; reflexivity.
Qed.

Lemma last_fmap {A B} (f : A -> B) l : forall d,
  List.last (map f l) (f d) = f (List.last l d).
Proof.
  induction l as [|x l IH]; intros d; [reflexivity|].
  destruct l as [|y l]; [reflexivity|]. exact (IH d).
Qed.

(** X11.  Read back by [git_changes], the lines of a status listing give
    the listing: for entries with two status letters and a relative path
    of plain names, each printed on its line (the first not beginning
    with white space, the last not ending with it), the result is the
    entries in order, each path joined to the repository. *)
Theorem git_changes_round_trip repo e es :
  Forall entry_ok (e :: es) ->
  Str.lstrip (render e) = render e ->
  ends_visible (render (List.last es e)) = true ->
  parse_status repo (unlines (map render (e :: es))) =
    map (fun x => (x.1, repo // x.2)) (e :: es).
Proof.
  intros Hall Hfirst Hlast. unfold parse_status.
  change (unlines (map render (e :: es)))
    with (unlines (render e :: map render es)).
  rewrite strip_splitlines_unlines.
  - rewrite Hfirst. change (render e :: map render es) with (map render (e :: es)).
    rewrite map_map. apply map_ext_in. intros x Hin.
    apply list_elem_of_In in Hin.
    rewrite Forall_forall in Hall. destruct (Hall x Hin) as (Hlen & _ & Hrel & Hq).
    destruct (take_drop_render x Hlen) as [-> ->].
    unfold PurePath.join_str. rewrite of_str_to_str by assumption. reflexivity.
  - change (render e :: map render es) with (map render (e :: es)).
    apply Forall_fmap. eapply Forall_impl; [exact Hall|].
    intros x (_ & Hx & _). exact Hx.
  - rewrite Hfirst. apply Forall_cons in Hall as [(Hlen & _) _].
    unfold render. destruct e as [code q]. cbn [fst] in *.
    destruct code; [discriminate|]. discriminate.
  - rewrite last_fmap. exact Hlast.
Qed.

(** ** [ensure_symlink_to] in a directory that is not there yet *)

Lemma get_insert_ne (f : gmap (list string) inode) l k i :
  l <> k -> Fs.get (<[l := i]> f) k = Fs.get f k.
Proof.
  intros H. destruct k; [reflexivity|]. cbn [Fs.get].
  apply lookup_insert_ne. exact H.
Qed.

Lemma get_weaken (f f' : gmap (list string) inode) k i :
  f ⊆ f' -> Fs.get f k = Some i -> Fs.get f' k = Some i.
Proof.
  intros Hsub. destruct k; [auto|]. cbn [Fs.get]. intros E.
  exact (lookup_weaken _ _ _ _ E Hsub).
Qed.

(** What a lookup ends at is the place it started from, something that
    exists, or a name in a directory. *)
Lemma walk_ends_in_dir (f : gmap (list string) inode) fuel :
  wf f ->
  forall fl cur comps l,
    Fs.walk fuel f fl cur comps = inr l ->
    l = cur \/ is_Some (Fs.get f l) \/
    exists d c, l = d ++ [c] /\ Fs.get f d = Some Dir.
Proof.
  intros Hwf.
  assert (Hup : forall cur, Fs.get f cur = Some Dir ->
                            Fs.get f (removelast cur) = Some Dir).
  { intros cur Hc. destruct cur as [|x cur] using rev_ind; [reflexivity|].
    rewrite removelast_last. rewrite get_snoc in Hc. eapply Hwf. exact Hc. }
  induction fuel as [|fuel IHfuel]; intros fl cur comps; revert cur;
    induction comps as [|c rest IH]; intros cur l H.
  - rewrite walk_nil in H. injection H as <-. auto.
  - rewrite walk_cons in H.
    destruct (Fs.get f cur) as [[]|] eqn:Ec; try discriminate.
    destruct (String.eqb c "..").
    { destruct (IH _ _ H) as [->|Hr]; [|right; exact Hr].
      right. left. rewrite (Hup _ Ec). eauto. }
    destruct (f !! (cur ++ [c])) as [[]|] eqn:E.
    + destruct (IH _ _ H) as [->|Hr]; [|right; exact Hr].
      right. left. rewrite get_snoc, E. eauto.
    + destruct (IH _ _ H) as [->|Hr]; [|right; exact Hr].
      right. left. rewrite get_snoc, E. eauto.
    + destruct (bool_decide (rest = []) && negb fl); [|discriminate].
      injection H as <-. right. left. rewrite get_snoc, E. eauto.
    + destruct (IH _ _ H) as [->|Hr]; [|right; exact Hr].
      right. right. eauto.
  - rewrite walk_nil in H. injection H as <-. auto.
  - rewrite walk_cons in H.
    destruct (Fs.get f cur) as [[]|] eqn:Ec; try discriminate.
    destruct (String.eqb c "..").
    { destruct (IH _ _ H) as [->|Hr]; [|right; exact Hr].
      right. left. rewrite (Hup _ Ec). eauto. }
    destruct (f !! (cur ++ [c])) as [[]|] eqn:E.
    + destruct (IH _ _ H) as [->|Hr]; [|right; exact Hr].
      right. left. rewrite get_snoc, E. eauto.
    + destruct (IH _ _ H) as [->|Hr]; [|right; exact Hr].
      right. left. rewrite get_snoc, E. eauto.
    + destruct (bool_decide (rest = []) && negb fl).
      * injection H as <-. right. left. rewrite get_snoc, E. eauto.
      * destruct (IHfuel _ _ _ _ H) as [->|Hr]; [|right; exact Hr].
        right. left. destruct (anchored target); [eexists; reflexivity|].
        rewrite Ec. eauto.
    + destruct (IH _ _ H) as [->|Hr]; [|right; exact Hr].
      right. right. eauto.
Qed.

(** Making an entry keeps every entry in a directory. *)
Lemma create_wf (cwd0 : list string) (f f' : gmap (list string) inode)
    (i : inode) (p : Path) :
  wf f ->
  Fs.get f (if anchored p then [] else cwd0) = Some Dir ->
  Fs.create cwd0 f i p = inr f' ->
  wf f'.
Proof.
  intros Hwf Hstart. unfold Fs.create, Fs.locate.
  destruct (Fs.walk _ f false _ _) as [e|l] eqn:Ew; [discriminate|].
  destruct (Fs.get f l) eqn:G; [discriminate|]. intros [= <-].
  destruct (walk_ends_in_dir f _ Hwf _ _ _ _ Ew) as [->|[[j Hj]|(d & c & -> & Hd)]];
    try congruence.
  intros l' c' i' H.
  destruct (decide (l' ++ [c'] = d ++ [c])) as [Heq|Hne].
  - apply app_inj_tail in Heq as [-> ->].
    rewrite get_insert_ne; [exact Hd|].
    intros Hbad. apply (f_equal List.length) in Hbad.
    rewrite length_app in Hbad. simpl in Hbad. lia.
  - rewrite lookup_insert_ne in H by (intros Hbad; apply Hne; symmetry; exact Hbad).
    pose proof (Hwf _ _ _ H) as Hl'.
    rewrite get_insert_ne; [exact Hl'|]. intros <-. congruence.
Qed.

(** The last component of a path in the directory the rest resolves to. *)
Lemma walk_snoc (f : gmap (list string) inode) fuel n :
  String.eqb n ".." = false ->
  forall cur pre d,
    Fs.walk fuel f true cur pre = inr d ->
    Fs.get f d = Some Dir ->
    Fs.walk fuel f false cur (pre ++ [n]) = inr (d ++ [n]).
Proof.
  intros Hn.
  assert (Hbase : forall fuel cur, Fs.get f cur = Some Dir ->
                    Fs.walk fuel f false cur [n] = inr (cur ++ [n])).
  { intros k cur Hc. rewrite walk_cons, Hc, Hn.
    destruct (f !! (cur ++ [n])) as [[]|]; rewrite ?walk_nil; reflexivity. }
  induction fuel as [|fuel IHfuel]; intros cur pre; revert cur;
    induction pre as [|p pre IH]; intros cur d H Hd.
  - rewrite walk_nil in H. injection H as <-. apply Hbase, Hd.
  - rewrite walk_cons in H. cbn [app]. rewrite walk_cons.
    destruct (Fs.get f cur) as [[]|]; try discriminate.
    destruct (String.eqb p ".."); [auto|].
    destruct (f !! (cur ++ [p])) as [[]|]; auto.
    rewrite andb_false_r in H. discriminate.
  - rewrite walk_nil in H. injection H as <-. apply Hbase, Hd.
  - rewrite walk_cons in H. cbn [app]. rewrite walk_cons.
    destruct (Fs.get f cur) as [[]|]; try discriminate.
    destruct (String.eqb p ".."); [auto|].
    destruct (f !! (cur ++ [p])) as [[]|]; auto.
    rewrite andb_false_r in H.
    replace (bool_decide (pre ++ [n] = []) && negb false) with false
      by (symmetry; apply andb_false_iff; left; apply bool_decide_eq_false;
          destruct pre; discriminate).
    rewrite app_assoc. auto.
Qed.

Section MakeParents.

Variable env : Env.

Lemma grown_refl start w : grown start w w.
Proof. split; [reflexivity|auto]. Qed.

Lemma grown_trans start w1 w2 w3 :
  grown start w1 w2 -> grown start w2 w3 -> grown start w1 w3.
Proof.
  intros [Hs1 Hw1] [Hs2 Hw2]. split; [etrans; eassumption|].
  intros Hwf Hstart. apply Hw2; [auto|]. eapply get_weaken; eassumption.
Qed.

Lemma grown_mkdir (a : bool) (ps : list string) w f' ev :
  Fs.mkdir (cwd env) (fs w) (mkPath a ps) = inr f' ->
  grown (if a then [] else cwd env) w (log ev (mkWorld f' (ticks w) (events w))).
Proof.
  intros H. split; [exact (mkdir_grows _ _ _ _ H)|].
  intros Hwf Hstart. simpl.
  exact (create_wf (cwd env) (fs w) f' Dir (mkPath a ps) Hwf Hstart H).
Qed.

Lemma mkdir_once_grown (a : bool) (ps : list string) exist_ok w :
  grown (if a then [] else cwd env) w (mkdir_once env (mkPath a ps) exist_ok w).2.
Proof.
  unfold mkdir_once. destruct (Fs.mkdir _ _ _) as [e|f'] eqn:Em.
  - destruct e; simpl;
      try (destruct (negb exist_ok || negb (is_dir_in env (fs w) _)); simpl);
      apply grown_refl.
  - exact (grown_mkdir _ _ _ _ _ Em).
Qed.

Lemma mkdir_rec_grown rparts : forall (a : bool) parents exist_ok w,
  grown (if a then [] else cwd env) w (mkdir_rec env a rparts parents exist_ok w).2.
Proof.
  induction rparts as [|c rparts IH]; intros a parents exist_ok w;
    cbn [mkdir_rec]; cbv zeta.
  - destruct (Fs.mkdir _ _ _) as [e|f'] eqn:Em; [|exact (grown_mkdir _ _ _ _ _ Em)].
    destruct e; simpl;
      try (destruct parents; simpl);
      try (destruct (negb exist_ok || negb (is_dir_in env (fs w) _)); simpl);
      apply grown_refl.
  - destruct (Fs.mkdir _ _ _) as [e|f'] eqn:Em; [|exact (grown_mkdir _ _ _ _ _ Em)].
    destruct e; simpl;
      try (destruct (negb exist_ok || negb (is_dir_in env (fs w) _)); simpl);
      try apply grown_refl.
    destruct parents; simpl; [|apply grown_refl].
    rewrite bind_unfold. specialize (IH a true true w).
    destruct (mkdir_rec env a rparts true true w) as [[e|[]] w1];
      simpl in *; [exact IH|].
    eapply grown_trans; [exact IH|]. apply mkdir_once_grown.
Qed.

(** A [mkdir(parents=True)] that returns has ended with the [mkdir] of
    the path itself. *)
Lemma mkdir_rec_last rparts (a : bool) parents w :
  (mkdir_rec env a rparts parents false w).1 = inr tt ->
  exists w0,
    grown (if a then [] else cwd env) w w0 /\
    Fs.mkdir (cwd env) (fs w0) (mkPath a (rev rparts))
      = inr (fs (mkdir_rec env a rparts parents false w).2).
Proof.
  destruct rparts as [|c rparts]; cbn [mkdir_rec]; cbv zeta.
  - destruct (Fs.mkdir _ _ _) as [e|f'] eqn:Em.
    + destruct e; simpl; try (destruct parents; simpl); discriminate.
    + intros _. exists w. split; [apply grown_refl|exact Em].
  - destruct (Fs.mkdir _ _ _) as [e|f'] eqn:Em.
    + destruct e; simpl; try discriminate.
      destruct parents; simpl; [|discriminate].
      rewrite bind_unfold.
      pose proof (mkdir_rec_grown rparts a true true w) as Hg.
      destruct (mkdir_rec env a rparts true true w) as [[e|[]] w1];
        simpl in *; [discriminate|].
      intros H. destruct (mkdir_once_inv _ _ _ _ H eq_refl) as (f1 & Hm & ->).
      exists w1. split; [exact Hg|exact Hm].
    + intros _. exists w. split; [apply grown_refl|exact Em].
Qed.

(** X12.  Where the directory of [path] does not exist (in a filesystem
    whose entries all lie in directories, for a path that does not end in
    [..]), a call of [ensure_symlink_to] that returns has printed its
    line, made the missing directories, the last of them [path.parent],
    and then the link, and returns [True]: it has unlinked and renamed
    nothing, every entry that was there is still there, [path.parent] is
    a directory and [path] a link to [dest]. *)
Theorem ensure_symlink_to_makes_parents path dest w r :
  wf (fs w) ->
  Fs.get (fs w) (if anchored path then [] else cwd env) = Some Dir ->
  parts path <> [] ->
  PurePath.name path <> ".." ->
  exists_in env (fs w) (PurePath.parent path) = false ->
  (ensure_symlink_to env path dest w).1 = inr r ->
  let w' := (ensure_symlink_to env path dest w).2 in
  r = true /\
  fs w ⊆ fs w' /\
  is_dir_in env (fs w') (PurePath.parent path) = true /\
  Fs.lstat (cwd env) (fs w') path = inr (Link dest) /\
  exists mk,
    Forall is_mkdir mk /\
    events w' =
      events w ++
        [Printed "Creating {path.parent}"] ++ mk ++
        [SysMkdir (PurePath.parent path);
         Printed ("Linking " +:+ PurePath.to_str path +:+ " to "
                  +:+ PurePath.to_str dest);
         SysSymlink dest path].
Proof.
  intros Hwf Hstart Hparts Hname Hmissing H. cbv zeta. revert H.
  unfold ensure_symlink_to. mstep. rewrite Hmissing.
  rewrite bind_unfold. rewrite bind_unfold. simpl.
  unfold path_mkdir.
  set (w0 := log (Printed "Creating {path.parent}") w).
  pose proof (mkdir_rec_inv env (rev (parts (PurePath.parent path)))
                (anchored (PurePath.parent path)) true w0) as Hev.
  pose proof (mkdir_rec_last (rev (parts (PurePath.parent path)))
                (anchored (PurePath.parent path)) true w0) as Hlast.
  destruct (mkdir_rec env _ _ true false w0) as [[e|[]] w1];
    simpl in Hev, Hlast |- *; [discriminate|].
  destruct (Hev eq_refl) as (Ht & mk & He & Hmk). clear Hev.
  destruct (Hlast eq_refl) as (v & [Hsub Hwfv] & Hm). clear Hlast.
  rewrite rev_involutive in He, Hm.
  change (mkPath (anchored path) (removelast (parts path)))
    with (PurePath.parent path) in He, Hm.
  specialize (Hwfv Hwf Hstart).
  (* the directory just made *)
  unfold Fs.mkdir, Fs.create in Hm.
  destruct (Fs.locate (cwd env) (fs v) false (PurePath.parent path))
    as [e|lp] eqn:Eloc; [discriminate|].
  destruct (Fs.get (fs v) lp) eqn:Eget; [discriminate|].
  injection Hm as Hfs1.
  assert (Hlp : fs v !! lp = None) by (destruct lp; [discriminate|exact Eget]).
  assert (Hsub1 : fs v ⊆ fs w1)
    by (rewrite <- Hfs1; apply insert_subseteq; exact Hlp).
  assert (Hlp1 : Fs.get (fs w1) lp = Some Dir).
  { rewrite <- Hfs1. destruct lp; [reflexivity|]. cbn [Fs.get].
    apply lookup_insert_eq. }
  assert (Hloc1 : Fs.walk Fs.MAXSYMLINKS (fs w1) true
                    (if anchored path then [] else cwd env)
                    (removelast (parts path)) = inr lp).
  { pose proof (walk_mono _ _ Fs.MAXSYMLINKS Hsub1 _ _ _ Eloc) as Hw.
    change (Fs.walk Fs.MAXSYMLINKS (fs w1) false
              (if anchored path then [] else cwd env)
              (removelast (parts path)) = inr lp) in Hw.
    rewrite walk_follow_irrelevant; [exact Hw|].
    rewrite Hw. intros t Hbad. congruence. }
  assert (Hn : String.eqb (PurePath.name path) ".." = false)
    by (apply String.eqb_neq; exact Hname).
  assert (Hpath : Fs.locate (cwd env) (fs w1) false path
                  = inr (lp ++ [PurePath.name path])).
  { unfold Fs.locate.
    rewrite (app_removelast_last "" Hparts) at 1.
    apply walk_snoc; assumption. }
  assert (Habsent : fs w1 !! (lp ++ [PurePath.name path]) = None).
  { rewrite <- Hfs1. rewrite lookup_insert_ne.
    - destruct (fs v !! (lp ++ [PurePath.name path])) eqn:Eb; [|reflexivity].
      apply Hwfv in Eb. congruence.
    - intros Hbad. apply (f_equal List.length) in Hbad.
      rewrite length_app in Hbad. simpl in Hbad. lia. }
  assert (El : Fs.lstat (cwd env) (fs w1) path = inl ENOENT).
  { unfold Fs.lstat, Fs.inode_at. rewrite Hpath, get_snoc, Habsent. reflexivity. }
  (* the rest of the call *)
  rewrite bind_unfold. simpl. rewrite is_symlink_in_lstat, El.
  rewrite bind_unfold. simpl. unfold exists_in.
  rewrite (lstat_error_stat _ _ _ _ El).
  rewrite bind_unfold. simpl. rewrite link_and_report_run. cbv zeta.
  assert (Hs : Fs.symlink (cwd env) (fs w1) dest path
               = inr (<[lp ++ [PurePath.name path] := Link dest]> (fs w1))).
  { unfold Fs.symlink, Fs.create. rewrite Hpath, get_snoc, Habsent. reflexivity. }
  rewrite Hs. simpl. intros [= <-]. split; [reflexivity|].
  assert (Hsub2 : fs w1 ⊆ <[lp ++ [PurePath.name path] := Link dest]> (fs w1))
    by (apply insert_subseteq; exact Habsent).
  split; [|split; [|split]].
  - etrans; [exact Hsub|]. etrans; [exact Hsub1|exact Hsub2].
  - unfold is_dir_in, Fs.stat, Fs.inode_at, Fs.locate.
    pose proof (walk_mono _ _ Fs.MAXSYMLINKS Hsub1 _ _ _ Eloc) as Hw.
    pose proof (walk_mono _ _ Fs.MAXSYMLINKS Hsub2 _ _ _ Hw) as Hw2.
    change (parts (PurePath.parent path)) with (removelast (parts path)).
    change (anchored (PurePath.parent path)) with (anchored path).
    change (Fs.walk Fs.MAXSYMLINKS
              (<[lp ++ [PurePath.name path] := Link dest]> (fs w1)) false
              (if anchored path then [] else cwd env)
              (removelast (parts path)) = inr lp) in Hw2.
    assert (Hd2 : Fs.get (<[lp ++ [PurePath.name path] := Link dest]> (fs w1)) lp
                  = Some Dir) by (eapply get_weaken; eassumption).
    rewrite walk_follow_irrelevant; rewrite Hw2; [rewrite Hd2; reflexivity|].
    intros t Hbad. congruence.
  - eapply lstat_symlink. exact Hs.
  - exists mk. split; [exact Hmk|]. rewrite He. subst w0. unfold log. simpl.
    rewrite <- !app_assoc. reflexivity.
Qed.

End MakeParents.

(** ** The further properties on the example worlds *)

Lemma backup_path_fresh_sibling_witness :
  let b := mkPath true ["home"; "u"; "scratch-2024-06-15T12_00_00"] in
  (backup_path (env_on june15 "") scratch_u occupied).1 = inr b /\
  PurePath.parent b = PurePath.parent scratch_u /\
  b <> scratch_u /\
  exists_in (env_on june15 "") (fs occupied) b = false.
Proof.
  intros b.
  assert (H : (backup_path (env_on june15 "") scratch_u occupied).1 = inr b)
    by (vm_compute; reflexivity).
  destruct (backup_path_fresh_sibling (env_on june15 "") scratch_u occupied b H)
    as (H1 & _ & H3 & H4 & _).
  auto.
Defined.

Lemma backup_path_distinct_seconds_witness :
  in_range june15 /\ in_range june15_later /\ june15 <> june15_later /\
  mkPath true ["home"; "u"; "scratch-2024-06-15T12_00_00"]
    <> mkPath true ["home"; "u"; "scratch-2024-06-15T12_00_01"].
Proof.
  assert (H1 : in_range june15) by (unfold in_range, june15; simpl; lia).
  assert (H2 : in_range june15_later) by (unfold in_range, june15_later; simpl; lia).
  assert (H3 : june15 <> june15_later) by discriminate.
  split; [exact H1|]. split; [exact H2|]. split; [exact H3|].
  refine (backup_path_distinct_seconds (env_on june15 "") (env_on june15_later "")
            scratch_u occupied occupied _ _ H1 H2 H3 _ _);
    vm_compute; reflexivity.
Defined.

Lemma day_name_round_trip_witness :
  DateTime.strftime DATE_FMT june15 = "2024-06-15" /\
  DateTime.strptime (DateTime.strftime DATE_FMT june15) DATE_FMT
    = Some (mkDT 2024 6 15 0 0 0).
Proof.
  split; [vm_compute; reflexivity|].
  refine (day_name_round_trip june15 _ _).
  - unfold june15; simpl; lia.
  - vm_compute; reflexivity.
Defined.

Lemma git_commit_stops_on_git_failure_witness :
  git_commit env_git_down repo_u settled =
    (inl (CalledProcessError STATUS), log (Run STATUS repo_u) settled) /\
  (git_commit env_add_fails repo_u settled).1
    = inl (CalledProcessError ["git"; "add"; "."]) /\
  events (git_commit env_add_fails repo_u settled).2 =
    [Run STATUS repo_u;
     Printed "/home/u/repo has local changes, comitting";
     Run ["git"; "add"; "."] repo_u].
Proof.
  assert (Hd : is_dir_in env_git_down (fs settled) repo_u = true)
    by (vm_compute; reflexivity).
  assert (Hd' : is_dir_in env_add_fails (fs settled) repo_u = true)
    by (vm_compute; reflexivity).
  split.
  - exact (proj1 (git_commit_stops_on_git_failure env_git_down repo_u settled Hd)
             eq_refl).
  - rewrite (proj2 (git_commit_stops_on_git_failure env_add_fails repo_u settled Hd')
               "?? 2024-06-15/notes.txt" eq_refl).
    + split; vm_compute; reflexivity.
    + vm_compute; reflexivity.
    + reflexivity.
Defined.

Lemma git_commit_initialises_missing_repository_witness :
  exists_in (env_on june15 "") (fs fresh) repo_u = false /\
  (git_commit (env_on june15 "") repo_u fresh).1 = inr tt /\
  exists mk,
    Forall is_mkdir mk /\
    events (git_commit (env_on june15 "") repo_u fresh).2 =
      events fresh ++
        [Printed (PurePath.to_str repo_u +:+ " doesn't exist, creating")] ++
        mk ++
        [SysMkdir repo_u;
         Printed ("Running `git init` in " +:+ PurePath.to_str repo_u);
         Run ["git"; "init"] repo_u].
Proof.
  assert (H1 : exists_in (env_on june15 "") (fs fresh) repo_u = false)
    by (vm_compute; reflexivity).
  assert (H2 : (git_commit (env_on june15 "") repo_u fresh).1 = inr tt)
    by (vm_compute; reflexivity).
  split; [exact H1|]. split; [exact H2|].
  exact (proj2 (git_commit_initialises_missing_repository
                  (env_on june15 "") repo_u fresh H1 H2)).
Defined.

Lemma ensure_symlink_to_reports_work_exactly_witness :
  (ensure_symlink_to (env_on june15 "") scratch_u (day_u "2024-06-15") settled).1
    = inr false /\
  exists t,
    Fs.lstat [] (fs settled) scratch_u = inr (Link t) /\
    PurePath.parent scratch_u // t = day_u "2024-06-15".
Proof.
  assert (H : (ensure_symlink_to (env_on june15 "") scratch_u
                 (day_u "2024-06-15") settled).1 = inr false)
    by (vm_compute; reflexivity).
  split; [exact H|].
  refine (proj1 (ensure_symlink_to_reports_work_exactly (env_on june15 "")
                   scratch_u (day_u "2024-06-15") settled false _ H) eq_refl).
  vm_compute; reflexivity.
Defined.

Lemma ensure_symlink_to_refuses_empty_name_witness :
  exists msg,
    ensure_symlink_to (env_on june15 "") (mkPath true []) (day_u "2024-06-15") fresh
    = (inl (ValueError msg), mkWorld (fs fresh) 1 []).
Proof.
  exact (ensure_symlink_to_refuses_empty_name (env_on june15 "") (mkPath true [])
           (day_u "2024-06-15") fresh eq_refl eq_refl).
Defined.

Lemma ensure_symlink_to_twice_witness :
  let first :=
    ensure_symlink_to (env_on june15 "") scratch_u (day_u "2024-06-15") occupied in
  first.1 = inr true /\
  (ensure_symlink_to (env_on june15 "") scratch_u (day_u "2024-06-15") first.2).1
    = inr false.
Proof.
  intros first.
  assert (H : first.1 = inr true) by (vm_compute; reflexivity).
  split; [exact H|]. subst first.
  rewrite (ensure_symlink_to_twice (env_on june15 "") scratch_u
             (day_u "2024-06-15") occupied true eq_refl H).
  reflexivity.
Defined.

Lemma parse_status_lines_witness :
  parse_status repo_u (unlines [" M xprev"; "?? 2024-06-15/notes.txt"]) =
    [("M ", mkPath true ["home"; "u"; "repo"; "prev"]);
     ("??", mkPath true ["home"; "u"; "repo"; "2024-06-15"; "notes.txt"])] /\
  head (parse_status repo_u (unlines [" M xprev"; "?? 2024-06-15/notes.txt"])) =
    Some ("M ", PurePath.join_str repo_u (Str.drop 1 "xprev")).
Proof.
  assert (H1 : Forall (fun l => one_line l = true)
                 [" M xprev"; "?? 2024-06-15/notes.txt"])
    by (repeat constructor).
  assert (H2 : Str.lstrip " M xprev" <> EmptyString) by (vm_compute; discriminate).
  assert (H3 : ends_visible (List.last ["?? 2024-06-15/notes.txt"] " M xprev") = true)
    by (vm_compute; reflexivity).
  destruct (parse_status_lines repo_u " M xprev" ["?? 2024-06-15/notes.txt"] H1 H2 H3)
    as [E Hq].
  split.
  - rewrite E. vm_compute. reflexivity.
  - exact (Hq "M"%char "xprev" eq_refl eq_refl).
Defined.

Lemma git_changes_round_trip_witness :
  let e := ("??", mkPath false ["2024-06-15"; "prev"]) in
  let es := [(" M", mkPath false ["2024-06-15"; "notes.txt"])] in
  unlines (map render (e :: es)) =
    "?? 2024-06-15/prev" +:+ nl +:+ " M 2024-06-15/notes.txt" +:+ nl /\
  parse_status repo_u (unlines (map render (e :: es))) =
    map (fun x => (x.1, repo_u // x.2)) (e :: es).
Proof.
  intros e es. split; [vm_compute; reflexivity|].
  refine (git_changes_round_trip repo_u e es _ _ _).
  - repeat constructor; try discriminate; vm_compute; reflexivity.
  - vm_compute; reflexivity.
  - vm_compute; reflexivity.
Defined.

Lemma wf_fresh : wf (fs fresh).
Proof.
  intros l c i H. apply elem_of_list_to_map_2 in H.
  apply elem_of_cons in H as [H|H].
  - injection H as Hk _. change ["home"] with ([] ++ ["home"]) in Hk.
    apply app_inj_tail in Hk as [-> _]. reflexivity.
  - apply elem_of_cons in H as [H|H]; [|inversion H].
    injection H as Hk _. change ["home"; "u"] with (["home"] ++ ["u"]) in Hk.
    apply app_inj_tail in Hk as [-> _]. vm_compute. reflexivity.
Qed.

Lemma ensure_symlink_to_makes_parents_witness :
  let after :=
    (ensure_symlink_to (env_on june15 "") deep_scratch (day_u "2024-06-15") fresh).2 in
  exists_in (env_on june15 "") (fs fresh) (PurePath.parent deep_scratch) = false /\
  fs fresh ⊆ fs after /\
  is_dir_in (env_on june15 "") (fs after) (PurePath.parent deep_scratch) = true /\
  Fs.lstat [] (fs after) deep_scratch = inr (Link (day_u "2024-06-15")) /\
  events after =
    [Printed "Creating {path.parent}";
     SysMkdir (mkPath true ["home"; "u"; "tmp"]);
     SysMkdir (mkPath true ["home"; "u"; "tmp"; "today"]);
     Printed "Linking /home/u/tmp/today/scratch to /home/u/repo/2024-06-15";
     SysSymlink (day_u "2024-06-15") deep_scratch].
Proof.
  intros after.
  assert (Hm : exists_in (env_on june15 "") (fs fresh)
                 (PurePath.parent deep_scratch) = false)
    by (vm_compute; reflexivity).
  assert (Hr : (ensure_symlink_to (env_on june15 "") deep_scratch
                  (day_u "2024-06-15") fresh).1 = inr true)
    by (vm_compute; reflexivity).
  assert (Hparts : parts deep_scratch <> []) by discriminate.
  assert (Hname : PurePath.name deep_scratch <> "..")
    by (vm_compute; discriminate).
  destruct (ensure_symlink_to_makes_parents (env_on june15 "") deep_scratch
              (day_u "2024-06-15") fresh true wf_fresh eq_refl Hparts Hname Hm Hr)
    as (_ & Hsub & Hdir & Hl & _).
  split; [exact Hm|]. split; [exact Hsub|]. split; [exact Hdir|].
  split; [exact Hl|]. vm_compute. reflexivity.
Defined.
